(** * Quina results page (script.js): CSV ingestion, merge and display

    A shallow embedding of [src/script.js].  Every definition below carries
    the name of the JavaScript function, method or operator it embeds.

    Conventions of the embedding.
    - A JavaScript string is its sequence of UTF-16 code units, each an [N].
    - A JavaScript number that the program handles is an integer; it is kept
      as an exact [Z] (exact in JavaScript up to 2^53), and [NaN] is the
      [None] of an [option Z].
    - Arrays that are only read are lists; the one place where the program
      sorts an array in place works on an explicit store of arrays. *)

From Stdlib Require Import ZArith NArith Lia String Ascii DecimalString.
From stdpp Require Import base option list sorting.

Local Open Scope N_scope.

(** ** JavaScript strings and the built-ins the script calls *)

Module JS.

Abbreviation jsstring := (list N).

(** An ASCII literal as a JavaScript string. *)
Definition js (s : string) : jsstring :=
  map N_of_ascii (list_ascii_of_string s).

(** The code units the script names: double quote, comma, slash, line feed
    and the digit zero. *)
Definition QUOTE : N := 34.
Definition COMMA : N := 44.
Definition SLASH : N := 47.
Definition LF : N := 10.
Definition ZERO : N := 48.

(** ECMAScript WhiteSpace and LineTerminator code points: what
    [String.prototype.trim] strips and what [parseInt] skips. *)
Definition is_white_space (c : N) : bool :=
  (c =? 9) || (c =? 10) || (c =? 11) || (c =? 12) || (c =? 13) ||
  (c =? 32) || (c =? 160) || (c =? 5760) ||
  ((8192 <=? c) && (c <=? 8202)) ||
  (c =? 8232) || (c =? 8233) || (c =? 8239) || (c =? 8287) ||
  (c =? 12288) || (c =? 65279).

Fixpoint trimStart (s : jsstring) : jsstring :=
  match s with
  | [] => []
  | c :: s' => if is_white_space c then trimStart s' else s
  end.

Fixpoint trimEnd (s : jsstring) : jsstring :=
  match s with
  | [] => []
  | c :: s' =>
      match trimEnd s' with
      | [] => if is_white_space c then [] else [c]
      | t => c :: t
      end
  end.

(** [s.trim()] *)
Definition trim (s : jsstring) : jsstring := trimEnd (trimStart s).

(** [s.split(sep)] for a one-code-unit separator: never an empty array. *)
Fixpoint split (sep : N) (s : jsstring) : list jsstring :=
  match s with
  | [] => [[]]
  | c :: s' =>
      if c =? sep then [] :: split sep s'
      else match split sep s' with
           | [] => [[c]]
           | p :: ps => (c :: p) :: ps
           end
  end.

(** [s.includes(c)] for a one-code-unit needle. *)
Definition includes (c : N) (s : jsstring) : bool :=
  existsb (N.eqb c) s.

(** [s.padStart(n, '0')] *)
Definition padStart0 (n : nat) (s : jsstring) : jsstring :=
  replicate (n - length s)%nat ZERO ++ s.

Definition is_digit (c : N) : bool := (48 <=? c) && (c <=? 57).

(** [s.replace(/\D/g, '')]: every code unit that is not a decimal digit is
    removed. *)
Definition replace_non_digits (s : jsstring) : jsstring :=
  List.filter is_digit s.

(** The longest prefix of decimal digits (step 11 of [parseInt]). *)
Fixpoint digit_prefix (s : jsstring) : jsstring :=
  match s with
  | [] => []
  | c :: s' => if is_digit c then c :: digit_prefix s' else []
  end.

(** The mathematical integer written by a string of decimal digits. *)
Definition digits_value (ds : jsstring) : Z :=
  fold_left (fun acc c => (10 * acc + (Z.of_N c - 48))%Z) ds 0%Z.

(** [parseInt(s, 10)]: leading white space is skipped, one sign is read, the
    longest digit prefix is converted; no digit at all gives [NaN] ([None]).
    Radix 10 is given, so no [0x] prefix is recognised. *)
Definition parseInt10 (s : jsstring) : option Z :=
  let s1 := trimStart s in
  let '(neg, s2) :=
    match s1 with
    | c :: r => if c =? 45 then (true, r)
                else if c =? 43 then (false, r)
                else (false, s1)
    | [] => (false, s1)
    end in
  match digit_prefix s2 with
  | [] => None
  | ds => Some (if neg then - digits_value ds else digits_value ds)%Z
  end.

(** [Number.isNaN(n)] *)
Definition Number_isNaN (n : option Z) : bool :=
  match n with None => true | Some _ => false end.

(** [a.slice(from, to)] for [0 <= from <= to] *)
Definition slice {A} (from to : nat) (a : list A) : list A :=
  take (to - from) (drop from a).

End JS.
Import JS.

(** ** CSV row parser and record extractor: [parseCSVLine], [parseCSV] *)

Module Csv.

(** The three variables of the loop in [parseCSVLine]. *)
Record line_state := LineState {
  values : list jsstring;
  current : jsstring;
  inQuotes : bool
}.

(** One iteration of [for (let i = 0; i < line.length; i++)]. *)
Definition parseCSVLine_step (st : line_state) (ch : N) : line_state :=
  if ch =? QUOTE then
    LineState (values st) (current st) (negb (inQuotes st))
  else if (ch =? COMMA) && negb (inQuotes st) then
    LineState (values st ++ [trim (current st)]) [] (inQuotes st)
  else
    LineState (values st) (current st ++ [ch]) (inQuotes st).

(** The state when the loop ends. *)
Definition parseCSVLine_loop (line : jsstring) : line_state :=
  fold_left parseCSVLine_step line (LineState [] [] false).

(** After the loop: [values.push(current.trim()); return values]. *)
Definition parseCSVLine (line : jsstring) : list jsstring :=
  let st := parseCSVLine_loop line in
  values st ++ [trim (current st)].

(** The values that the JSON cache and the extractor put in the fields of a
    record.  Numbers are integers (see the header); objects and arrays do not
    occur as draw numbers or dates. *)
Inductive jsval :=
  | JUndefined
  | JNull
  | JBool (b : bool)
  | JNum (z : Z)
  | JStr (s : jsstring).

(** One lottery drawing, as an object with the three properties the script
    reads. *)
Record DrawRecord := mkDraw {
  drawNumber : jsval;
  date : jsval;
  numbers : list Z
}.

(** [const [d, m, y] = dateStr.split('/')] followed by the template literal
    [`${y}-${m.padStart(2, '0')}-${d.padStart(2, '0')}`].  A missing third
    part is [undefined] and is printed as such by the template; the first two
    parts exist whenever the string contains a slash. *)
Definition isoDate_of (dateStr : jsstring) : jsstring :=
  let parts := split SLASH dateStr in
  let d := nth 0 parts [] in
  let m := nth 1 parts [] in
  let y := match parts !! 2%nat with Some y => y | None => js "undefined" end in
  y ++ js "-" ++ padStart0 2 m ++ js "-" ++ padStart0 2 d.

(** One iteration of the loop of [parseCSV] on [lines[i]]; [results] is the
    array built so far.  [row.slice(2, 7).map(parseInt).filter(not NaN)] is
    [omap parseInt10]: it keeps, in order, the values of the fields that
    parse. *)
Definition parseCSV_iter (results : list DrawRecord) (line : jsstring)
  : list DrawRecord :=
  let row := parseCSVLine line in
  if (length row <? 7)%nat then results
  else
    let drawNumber := parseInt10 (replace_non_digits (nth 0 row [])) in
    let dateStr := trim (nth 1 row []) in
    let numbers := omap parseInt10 (slice 2 7 row) in
    match drawNumber with
    | Some dn =>
        if (length numbers =? 5)%nat then
          let isoDate :=
            if includes SLASH dateStr then isoDate_of dateStr else dateStr in
          results ++ [mkDraw (JNum dn) (JStr isoDate) numbers]
        else results
    | None => results
    end.

(** [csvText.split('\n').filter(Boolean)]: the non-empty lines. *)
Definition csv_lines (csvText : jsstring) : list jsstring :=
  List.filter (fun l => negb (Nat.eqb (length l) 0)) (split LF csvText).

(** [parseCSV]: the loop starts at index 1 of the non-empty lines. *)
Definition parseCSV (csvText : jsstring) : list DrawRecord :=
  fold_left parseCSV_iter (drop 1 (csv_lines csvText)) [].

(** *** Vocabulary of the specification of the row parser and extractor *)

(** Number of commas met outside quoted mode, each double quote toggling the
    mode; [quoted] is the mode at the start of [line]. *)
Fixpoint unquoted_commas (quoted : bool) (line : jsstring) : nat :=
  match line with
  | [] => 0
  | c :: l =>
      if c =? QUOTE then unquoted_commas (negb quoted) l
      else if (c =? COMMA) && negb quoted then S (unquoted_commas quoted l)
      else unquoted_commas quoted l
  end.

(** The fields of a line before trimming, in their order: a comma outside
    quoted mode ends a field, a double quote toggles the mode and belongs to
    no field, every other code unit belongs to the field being read. *)
Fixpoint raw_fields (quoted : bool) (line : jsstring) : list jsstring :=
  match line with
  | [] => [[]]
  | c :: l =>
      if c =? QUOTE then raw_fields (negb quoted) l
      else if (c =? COMMA) && negb quoted then [] :: raw_fields quoted l
      else match raw_fields quoted l with
           | f :: fs => (c :: f) :: fs
           | [] => [[c]]
           end
  end.

(** Zero padding to two digits. *)
Definition two_digits (s : jsstring) : jsstring :=
  match s with
  | [] => [ZERO; ZERO]
  | [c] => [ZERO; c]
  | _ => s
  end.

(** The mode reached at the end of [line]. *)
Definition quoted_after (quoted : bool) (line : jsstring) : bool :=
  fold_left (fun q c => if c =? QUOTE then negb q else q) line quoted.

(** A field carries no white space at either end. *)
Definition trimmed (f : jsstring) : Prop :=
  (forall c, head f = Some c -> is_white_space c = false) /\
  (forall c, last f = Some c -> is_white_space c = false).

(** A header line followed by data lines, one line feed before each data
    line. *)
Definition csv_text (header : jsstring) (data : list jsstring) : jsstring :=
  header ++ concat (map (fun l => LF :: l) data).

(** A well-formed data line: one line, at least 7 fields, a digit in the
    first field, and each of the fields 2..6 parses as an integer. *)
Definition well_formed_line (line : jsstring) : bool :=
  let row := parseCSVLine line in
  negb (includes LF line) &&
  (7 <=? length row)%nat &&
  existsb is_digit (nth 0 row []) &&
  forallb (fun f => negb (Number_isNaN (parseInt10 f))) (slice 2 7 row).

(** How many of the fields 2..6 of a row parse as integers. *)
Definition parseable_fields (row : list jsstring) : nat :=
  length (List.filter (fun f => negb (Number_isNaN (parseInt10 f)))
            (slice 2 7 row)).

(** The three grounds on which a data line is rejected. *)
Definition rejected_line (line : jsstring) : Prop :=
  let row := parseCSVLine line in
  (length row < 7)%nat \/
  existsb is_digit (nth 0 row []) = false \/
  (parseable_fields row < 5)%nat.

End Csv.
Import Csv.

(** ** Result merger: lines 38 to 43 of [fetchResults] *)

(** What the host environment decides: the conversion of a string to a
    number, the parsing of a date string, and the two pt-BR date formats. *)
Class Host := {
  (** [Number(s)] for a string: [None] when the result is no integer. *)
  StringToNumber : jsstring -> option Z;
  (** [Date.parse(s)]: the time value, [None] for [NaN]. *)
  Date_parse : jsstring -> option Z;
  (** [toLocaleDateString('pt-BR', {day: '2-digit', month: 'short',
      year: 'numeric'})] of a valid time value. *)
  format_date : Z -> jsstring;
  (** [toLocaleString('pt-BR')] of a valid time value. *)
  format_date_time : Z -> jsstring
}.

Module Merge.
Section WithHost.
Context {host : Host}.

Definition Z_of_bool (b : bool) : Z := if b then 1%Z else 0%Z.

(** [ToNumber(v)]; [None] is [NaN]. *)
Definition ToNumber (v : jsval) : option Z :=
  match v with
  | JUndefined => None
  | JNull => Some 0%Z
  | JBool b => Some (Z_of_bool b)
  | JNum z => Some z
  | JStr s => StringToNumber s
  end.

(** Equality of two numbers, [NaN] being equal to nothing. *)
Definition number_eq (a b : option Z) : bool :=
  match a, b with
  | Some x, Some y => (x =? y)%Z
  | _, _ => false
  end.

(** [x == y] (IsLooselyEqual): values of one type compare strictly, [null]
    and [undefined] equal each other only, a boolean is first converted to a
    number, and a string meeting a number is converted to a number. *)
Definition loose_eq (x y : jsval) : bool :=
  match x, y with
  | JUndefined, JUndefined | JUndefined, JNull
  | JNull, JUndefined | JNull, JNull => true
  | JBool a, JBool b => Bool.eqb a b
  | JNum a, JNum b => (a =? b)%Z
  | JStr a, JStr b => bool_decide (a = b)
  | JNum a, JStr s | JStr s, JNum a => number_eq (Some a) (StringToNumber s)
  | JBool a, JNum b | JNum b, JBool a => (Z_of_bool a =? b)%Z
  | JBool a, JStr s | JStr s, JBool a =>
      number_eq (Some (Z_of_bool a)) (StringToNumber s)
  | _, _ => false
  end.

(** The body of [sheetResults.forEach(sr => ...)]: [find] walks the array
    built so far, remote records already pushed included. *)
Definition merge_iter (allResults : list DrawRecord) (sr : DrawRecord)
  : list DrawRecord :=
  match List.find (fun r => loose_eq (drawNumber r) (drawNumber sr)) allResults with
  | Some _ => allResults
  | None => allResults ++ [sr]
  end.

(** [const allResults = [...localData.results]; sheetResults.forEach(...)] *)
Definition mergeResults (localResults sheetResults : list DrawRecord)
  : list DrawRecord :=
  fold_left merge_iter sheetResults localResults.

(** *** Vocabulary of the specification of the merger *)

(** Some record of [rs] has a draw number loosely equal to that of [sr]. *)
Definition shares_drawNumber (rs : list DrawRecord) (sr : DrawRecord) : bool :=
  existsb (fun r => loose_eq (drawNumber r) (drawNumber sr)) rs.

(** The merge as the specification words it: the remote records whose draw
    number no local record shares. *)
Definition remote_only (localResults sheetResults : list DrawRecord)
  : list DrawRecord :=
  List.filter (fun sr => negb (shares_drawNumber localResults sr)) sheetResults.

(** The remote records whose draw number is shared neither by a local record
    nor by a remote record kept before them; [kept] lists the latter. *)
Fixpoint remote_fresh (localResults kept sheetResults : list DrawRecord)
  : list DrawRecord :=
  match sheetResults with
  | [] => []
  | sr :: rest =>
      if shares_drawNumber localResults sr || shares_drawNumber kept sr
      then remote_fresh localResults kept rest
      else sr :: remote_fresh localResults (kept ++ [sr]) rest
  end.

End WithHost.
End Merge.
Import Merge.

(** ** Result renderer: [formatDate], the two markup builders and
    [displayResults] *)

Module Render.

(** How a call ends: normally with a value, or by throwing. *)
Inductive completion (A : Type) :=
  | Normal (a : A)
  | Throw (e : jsstring).
Arguments Normal {A} a.
Arguments Throw {A} e.

#[export] Instance completion_ret : MRet completion := @Normal.

#[export] Instance completion_bind : MBind completion :=
  fun A B (k : A -> completion B) (c : completion A) =>
    match c with
    | Normal a => k a
    | Throw e => Throw e
    end.

(** [try { body } catch { handler }] *)
Definition try_catch {A} (body : completion A) (handler : A) : A :=
  match body with
  | Normal a => a
  | Throw _ => handler
  end.

(** The contents the script writes into the page. *)
Record Dom := mkDom {
  latestResultEl : jsstring;     (* latestResultEl.innerHTML *)
  previousResultsEl : jsstring;  (* previousResultsEl.innerHTML *)
  updateTimeEl : jsstring        (* updateTimeEl.textContent *)
}.

(** The arrays of records that exist, by reference, and the page. *)
Record World := mkWorld {
  arrays : list (list DrawRecord);
  dom : Dom
}.

(** The argument of [displayResults]: [results] is a reference to an array,
    or absent. *)
Record Data := mkData {
  results : option nat;
  lastUpdated : jsval
}.

Section WithHost.
Context {host : Host}.

(** [ToBoolean(v)] *)
Definition ToBoolean (v : jsval) : bool :=
  match v with
  | JUndefined | JNull => false
  | JBool b => b
  | JNum z => negb (z =? 0)%Z
  | JStr s => negb (Nat.eqb (length s) 0)
  end.

(** [String(z)] for an integer (decimal notation, below 10^21). *)
Definition Number_toString (z : Z) : jsstring :=
  js (NilZero.string_of_int (Z.to_int z)).

(** [ToString(v)], as a template literal applies it. *)
Definition ToString (v : jsval) : jsstring :=
  match v with
  | JUndefined => js "undefined"
  | JNull => js "null"
  | JBool b => if b then js "true" else js "false"
  | JNum z => Number_toString z
  | JStr s => s
  end.

(** [TimeClip]: time values beyond 8.64e15 ms are [NaN]. *)
Definition TimeClip (z : Z) : option Z :=
  if (Z.abs z <=? 8640000000000000)%Z then Some z else None.

(** [new Date(v)]: the time value of the new object, [None] for an invalid
    date.  A string is parsed, any other value is converted to a number.  The
    constructor does not throw. *)
Definition new_Date (v : jsval) : completion (option Z) :=
  Normal match v with
         | JStr s => Date_parse s
         | _ => match ToNumber v with Some z => TimeClip z | None => None end
         end.

(** [date.toLocaleDateString('pt-BR', {...})]: an invalid date is printed
    as the string Invalid Date; the call does not throw. *)
Definition toLocaleDateString (tv : option Z) : completion jsstring :=
  Normal match tv with
         | Some t => format_date t
         | None => js "Invalid Date"
         end.

(** [date.toLocaleString('pt-BR')] *)
Definition toLocaleString (tv : option Z) : completion jsstring :=
  Normal match tv with
         | Some t => format_date_time t
         | None => js "Invalid Date"
         end.

Definition formatDate (dateStr : jsval) : jsval :=
  if negb (ToBoolean dateStr) then JStr (js "Desconhecida")
  else
    try_catch
      (date ← new_Date dateStr;
       s ← toLocaleDateString date;
       mret (JStr s))
      dateStr.

(** Markup literals: an apostrophe in the Rocq literal stands for the double
    quote of the source. *)
Definition html (s : string) : jsstring :=
  map (fun c => if c =? 39 then QUOTE else c) (js s).

(** [parts.join(sep)] *)
Definition join (sep : jsstring) (parts : list jsstring) : jsstring :=
  match parts with
  | [] => []
  | p :: ps => p ++ concat (map (fun x => sep ++ x) ps)
  end.

(** [result.numbers.map(num => `<div ...>${num}</div>`).join('')] *)
Definition number_balls (nums : list Z) : jsstring :=
  join []
    (map (fun num =>
            html "<div class='number-ball'>" ++ Number_toString num
            ++ html "</div>") nums).

(** The template literals, line by line. *)
Definition createLatestResultHTML (result : DrawRecord) : jsstring :=
  join [LF]
    [ [];
      html "        <div class='latest-result-card'>";
      html "            <div class='result-header'>";
      html "                <div class='draw-info'>";
      html "                    <span class='label'>CONCURSO</span>";
      html "                    <span class='value'>#"
        ++ ToString (drawNumber result) ++ html "</span>";
      html "                </div>";
      html "                <div class='draw-info'>";
      html "                    <span class='label'>DATA</span>";
      html "                    <span class='value'>"
        ++ ToString (formatDate (date result)) ++ html "</span>";
      html "                </div>";
      html "            </div>";
      html "            <div class='numbers'>";
      html "                " ++ number_balls (numbers result);
      html "            </div>";
      html "        </div>";
      html "    " ].

Definition createPreviousResultHTML (result : DrawRecord) : jsstring :=
  join [LF]
    [ [];
      html "        <div class='previous-card'>";
      html "            <div class='result-header' style='margin-bottom: 12px;'>";
      html "                <div class='draw-info'>";
      html "                    <span class='label'>CONCURSO #"
        ++ ToString (drawNumber result) ++ html "</span>";
      html "                    <span class='value' style='font-size: 0.9em;'>"
        ++ ToString (formatDate (date result)) ++ html "</span>";
      html "                </div>";
      html "            </div>";
      html "            <div class='numbers'>";
      html "                " ++ number_balls (numbers result);
      html "            </div>";
      html "        </div>";
      html "    " ].

(** The two placeholders; 227, 225 and 237 are the code units of the
    accented letters. *)
Definition no_results_html : jsstring :=
  html "<div class='error'>Ainda n" ++ [227] ++ js "o h" ++ [225]
  ++ js " resultados dispon" ++ [237] ++ js "veis.</div>".

Definition no_previous_html : jsstring :=
  html "<p style='text-align: center; color: #888;'>Ainda n" ++ [227]
  ++ js "o h" ++ [225] ++ js " resultados anteriores.</p>".

Definition results_grid_html (previousResults : list DrawRecord) : jsstring :=
  join [LF]
    [ [];
      html "            <div class='results-grid'>";
      html "                "
        ++ join [] (map createPreviousResultHTML previousResults);
      html "            </div>";
      html "        " ].

(** [(a, b) => b.drawNumber - a.drawNumber]; [None] is [NaN]. *)
Definition comparefn (a b : DrawRecord) : option Z :=
  match ToNumber (drawNumber b), ToNumber (drawNumber a) with
  | Some x, Some y => Some (x - y)%Z
  | _, _ => None
  end.

(** [SortCompare]: a [NaN] from the comparator counts as 0. *)
Definition SortCompare (a b : DrawRecord) : Z :=
  match comparefn a b with Some v => v | None => 0%Z end.

(** [Array.prototype.sort] is stable; which comparisons it makes is left to
    the engine, and with a consistent comparator every stable sort returns
    the same array.  This one inserts from the right. *)
Fixpoint sort_insert (x : DrawRecord) (l : list DrawRecord) : list DrawRecord :=
  match l with
  | [] => [x]
  | y :: l' =>
      if (SortCompare x y <=? 0)%Z then x :: y :: l'
      else y :: sort_insert x l'
  end.

Definition Array_sort (l : list DrawRecord) : list DrawRecord :=
  foldr sort_insert [] l.

(** Reading an array through its reference. *)
Definition deref (h : list (list DrawRecord)) (ref : nat) : list DrawRecord :=
  match h !! ref with Some a => a | None => [] end.

Definition displayResults (w : World) (data : Data) : completion World :=
  let input :=
    match results data with Some ref => deref (arrays w) ref | None => [] end in
  if negb (bool_decide (is_Some (results data))) || Nat.eqb (length input) 0
  then
    Normal (mkWorld (arrays w)
              (mkDom no_results_html [] (updateTimeEl (dom w))))
  else
    (* [...data.results]: a new array with the same elements *)
    let copy := length (arrays w) in
    let h1 := arrays w ++ [input] in
    (* .sort(...): sorts that array in place and returns it *)
    let h2 := <[copy := Array_sort (deref h1 copy)]> h1 in
    let sortedResults := deref h2 copy in
    match sortedResults with
    | [] => Throw (js "TypeError")
    | latest :: _ =>
        let latestHTML := createLatestResultHTML latest in
        let previousResults := drop 1 sortedResults in
        let previousHTML :=
          if (0 <? length previousResults)%nat
          then results_grid_html previousResults
          else no_previous_html in
        updateTime ←
          (if ToBoolean (lastUpdated data) then
             lastUpdate ← new_Date (lastUpdated data);
             toLocaleString lastUpdate
           else mret (updateTimeEl (dom w)));
        mret (mkWorld h2 (mkDom latestHTML previousHTML updateTime))
    end.

(** *** Vocabulary of the specification of the renderer *)

(** The draw number as the comparator reads it. *)
Definition draw_key (r : DrawRecord) : option Z := ToNumber (drawNumber r).

(** [before x y]: both draw numbers are numbers and that of [x] is at least
    that of [y]. *)
Definition before (x y : DrawRecord) : Prop :=
  exists a b, draw_key x = Some a /\ draw_key y = Some b /\ (b <= a)%Z.

(** Draw numbers in descending order: every record is [before] all the
    records that follow it. *)
Definition descending (l : list DrawRecord) : Prop :=
  StronglySorted before l.

(** What [previousResultsEl] shows for the records after the first. *)
Definition previous_html (previous : list DrawRecord) : jsstring :=
  match previous with
  | [] => no_previous_html
  | _ :: _ => results_grid_html previous
  end.

End WithHost.
End Render.
Import Render.

(** A host for the examples: only signed decimal integers convert to a
    number, only dates of the shape YYYY-MM-DD with digits in those places
    parse (to a day count that ignores the calendar), and the two formats
    print the time value. *)
Definition example_host : Host := {|
  StringToNumber := fun s =>
    match trim s with
    | [] => Some 0%Z
    | c :: r =>
        let body := if (c =? 45) || (c =? 43) then r else c :: r in
        if forallb is_digit body then parseInt10 (c :: r) else None
    end;
  Date_parse := fun s =>
    match s with
    | [y1; y2; y3; y4; 45; m1; m2; 45; d1; d2] =>
        if forallb is_digit [y1; y2; y3; y4; m1; m2; d1; d2]
        then Some (digits_value [y1; y2; y3; y4; m1; m2; d1; d2])
        else None
    | _ => None
    end;
  format_date := fun t => Number_toString t;
  format_date_time := fun t => Number_toString t
|}.

(** ** Fetch orchestrator: [fetchResults] *)

Module Fetch.

(** What one [fetch] call and the reading of its body come to: the call
    rejects (network error), or answers with [ok] false, or answers with
    [ok] true and a body whose reading ([json()], [text()]) resolves or
    rejects. *)
Inductive fetched (A : Type) :=
  | Rejected
  | NotOk
  | Ok (body : completion A).
Arguments Rejected {A}.
Arguments NotOk {A}.
Arguments Ok {A} body.

(** [refreshBtn] *)
Record Button := mkButton {
  disabled : bool;
  textContent : jsstring
}.

(** The page and the arrays behind it, with the refresh button. *)
Record Page := mkPage {
  world : World;
  refreshBtn : Button
}.

(** The two labels of the button; 9203 is the hourglass, 55357 56580 the
    surrogate pair of the arrows sign. *)
Definition loading_label : jsstring := [9203] ++ js " Carregando...".
Definition default_label : jsstring := [55357; 56580] ++ js " Atualizar".

(** The error block of the [catch] branch; 9888 65039 is the warning sign. *)
Definition fetch_error_html : jsstring :=
  join [LF]
    [ [];
      html "            <div class='error'>";
      html "                <strong>" ++ [9888; 65039] ++ js " N" ++ [227]
        ++ js "o foi poss" ++ [237] ++ js "vel carregar os resultados "
        ++ [9888; 65039] ++ js "</strong>";
      html "                <p>Por favor, tente atualizar a p" ++ [225]
        ++ js "gina.</p>";
      html "            </div>";
      html "        " ].

Section WithHost.
Context {host : Host}.

(** The first two statements of [fetchResults]: the state of the page while
    the downloads are awaited. *)
Definition fetchResults_begin (p : Page) : Page :=
  mkPage (world p) (mkButton true loading_label).

(** The inner [try]: [sheetResults] stays empty unless the sheet answers
    with [ok] true and its text is read; a rejection is caught and only
    logged. *)
Definition sheet_results (sheet : fetched jsstring) : list DrawRecord :=
  try_catch
    (match sheet with
     | Rejected => Throw (js "TypeError")
     | NotOk => mret []
     | Ok body => csvText ← body; mret (parseCSV csvText)
     end)
    [].

(** The body of the outer [try].  [localData] is the parsed JSON, reduced to
    its [results]: [None] when they cannot be spread (absent, [null], not an
    array).  [isoNow] is the value of [new Date().toISOString()], [now] the
    time value of the second [new Date()].  The merged array is a new array
    of the store. *)
Definition fetchResults_try (w : World)
    (localJSON : fetched (option (list DrawRecord)))
    (sheet : fetched jsstring) (isoNow : jsstring) (now : Z)
  : completion World :=
  localData ←
    match localJSON with
    | Rejected => Throw (js "TypeError")
    | NotOk => mret (Some [])
    | Ok body => body
    end;
  let sheetResults := sheet_results sheet in
  localResults ←
    match localData with
    | Some rs => mret rs
    | None => Throw (js "TypeError")
    end;
  let allResults := length (arrays w) in
  let w1 :=
    mkWorld (arrays w ++ [mergeResults localResults sheetResults]) (dom w) in
  w2 ← displayResults w1 (mkData (Some allResults) (JStr isoNow));
  updateTime ← toLocaleString (Some now);
  mret (mkWorld (arrays w2)
          (mkDom (latestResultEl (dom w2)) (previousResultsEl (dom w2))
             updateTime)).

(** [fetchResults], from the answers of the two downloads to the page it
    leaves.  Every statement of the [try] that can throw comes before its
    first write to the page, so the [catch] branch writes its error block
    into the page as it was; [finally] resets the button. *)
Definition fetchResults (p : Page)
    (localJSON : fetched (option (list DrawRecord)))
    (sheet : fetched jsstring) (isoNow : jsstring) (now : Z) : Page :=
  let p1 := fetchResults_begin p in
  let w :=
    match fetchResults_try (world p1) localJSON sheet isoNow now with
    | Normal w' => w'
    | Throw _ =>
        mkWorld (arrays (world p1))
          (mkDom fetch_error_html
             (previousResultsEl (dom (world p1)))
             (updateTimeEl (dom (world p1))))
    end in
  mkPage w (mkButton false default_label).

(** *** Vocabulary of the properties of the renderer and orchestrator *)

(** The time value of [new Date(v)]. *)
Definition date_value (v : jsval) : option Z :=
  match v with
  | JStr s => Date_parse s
  | _ => match ToNumber v with Some z => TimeClip z | None => None end
  end.

(** What [toLocaleString('pt-BR')] prints for a time value. *)
Definition date_time_text (tv : option Z) : jsstring :=
  match tv with
  | Some t => format_date_time t
  | None => js "Invalid Date"
  end.

(** No record of the list has a draw number loosely equal to that of a
    record after it. *)
Definition distinct_drawNumbers (l : list DrawRecord) : Prop :=
  ForallOrdPairs
    (fun r sr => loose_eq (drawNumber r) (drawNumber sr) = false) l.

(** The local download failed in one of the three ways that reach the
    [catch] branch. *)
Definition local_failure (localJSON : fetched (option (list DrawRecord)))
  : Prop :=
  localJSON = Rejected \/
  (exists e, localJSON = Ok (Throw e)) \/
  localJSON = Ok (Normal None).

(** The local records that the merge starts from, when the outer [try]
    gets that far: none for an answer that is not [ok], those of the JSON
    for an answer that is; [None] in the three cases of [local_failure]. *)
Definition local_results (localJSON : fetched (option (list DrawRecord)))
  : option (list DrawRecord) :=
  match localJSON with
  | NotOk => Some []
  | Ok (Normal (Some rs)) => Some rs
  | _ => None
  end.

End WithHost.
End Fetch.
Import Fetch.

(** * Properties *)

(** ** Strings *)

Section Strings.

Lemma trimStart_head s c :
  head (trimStart s) = Some c -> is_white_space c = false.
Proof.
  induction s as [|a s IH]; simpl; [discriminate|].
  destruct (is_white_space a) eqn:Ha; [exact IH|].
  simpl. intros [= <-]. exact Ha.
Qed.

Lemma trimEnd_cons_inv c s :
  trimEnd (c :: s) = [] \/ exists t, trimEnd (c :: s) = c :: t.
Proof.
  simpl. destruct (trimEnd s) eqn:E.
  - destruct (is_white_space c); [left|right; exists []]; reflexivity.
  - right. eexists. reflexivity.
Qed.

Lemma trimEnd_head s c : head (trimEnd s) = Some c -> head s = Some c.
Proof.
  destruct s as [|a s]; [discriminate|].
  destruct (trimEnd_cons_inv a s) as [->|[t ->]]; [discriminate|auto].
Qed.

Lemma trimEnd_last s c :
  last (trimEnd s) = Some c -> is_white_space c = false.
Proof.
  induction s as [|a s IH]; simpl; [discriminate|].
  destruct (trimEnd s) as [|b t] eqn:E.
  - destruct (is_white_space a) eqn:Ha; simpl; [discriminate|].
    intros [= <-]. exact Ha.
  - intros H. apply IH. exact H.
Qed.

Lemma trim_trimmed s : trimmed (trim s).
Proof.
  unfold trim. split; intros c H.
  - apply trimEnd_head in H. eapply trimStart_head, H.
  - eapply trimEnd_last, H.
Qed.

Lemma trimStart_elem s c : c ∈ trimStart s -> c ∈ s.
Proof.
  induction s as [|a s IH]; simpl; [auto|].
  destruct (is_white_space a); [|auto].
  intros H. right. auto.
Qed.

Lemma trimEnd_elem s c : c ∈ trimEnd s -> c ∈ s.
Proof.
  induction s as [|a s IH]; simpl; [auto|].
  destruct (trimEnd s) as [|b t].
  - destruct (is_white_space a).
    + intros H. inversion H.
    + intros H. apply list_elem_of_singleton in H. subst. left.
  - intros H. apply elem_of_cons in H as [->|H]; [left|right; auto].
Qed.

Lemma trim_elem s c : c ∈ trim s -> c ∈ s.
Proof. intros H. apply trimStart_elem, trimEnd_elem, H. Qed.

End Strings.

(** ** The row parser *)

Section RowParser.

Lemma loop_app l1 l2 :
  fold_left parseCSVLine_step (l1 ++ l2) (LineState [] [] false)
  = fold_left parseCSVLine_step l2 (parseCSVLine_loop l1).
Proof. apply fold_left_app. Qed.

Lemma step_cases st ch :
  (ch = QUOTE /\
   parseCSVLine_step st ch
   = LineState (values st) (current st) (negb (inQuotes st))) \/
  (ch <> QUOTE /\ ch = COMMA /\ inQuotes st = false /\
   parseCSVLine_step st ch
   = LineState (values st ++ [trim (current st)]) [] false) \/
  (ch <> QUOTE /\ (ch <> COMMA \/ inQuotes st = true) /\
   parseCSVLine_step st ch
   = LineState (values st) (current st ++ [ch]) (inQuotes st)).
Proof.
  unfold parseCSVLine_step.
  destruct (N.eqb_spec ch QUOTE) as [->|Hq]; [left; auto|right].
  destruct (N.eqb_spec ch COMMA) as [->|Hc]; destruct (inQuotes st) eqn:Hi;
    simpl; [right|left|right|right]; repeat split; auto.
Qed.

(** Case analysis on one iteration: a quote, a separating comma, or a code
    unit of the current field. *)
Ltac loop_step st ch Hq Hi Hc :=
  destruct (step_cases st ch)
    as [[-> ->]|[(Hq & -> & Hi & ->)|(Hq & Hc & ->)]].

Lemma fold_length line st :
  length (values (fold_left parseCSVLine_step line st))
  = (length (values st) + unquoted_commas (inQuotes st) line)%nat.
Proof.
  revert st. induction line as [|ch line IH]; intros st; simpl; [lia|].
  rewrite IH.
  loop_step st ch Hq Hi Hc;
    simpl.
  - reflexivity.
  - rewrite Hi. simpl. rewrite length_app. simpl. lia.
  - apply N.eqb_neq in Hq. rewrite Hq.
    destruct Hc as [Hc| ->].
    + apply N.eqb_neq in Hc. rewrite Hc. reflexivity.
    + rewrite andb_false_r. reflexivity.
Qed.

Lemma fold_inQuotes line st :
  inQuotes (fold_left parseCSVLine_step line st)
  = quoted_after (inQuotes st) line.
Proof.
  unfold quoted_after. revert st.
  induction line as [|ch line IH]; intros st; simpl; [reflexivity|].
  rewrite IH. f_equal.
  loop_step st ch Hq Hi Hc;
    simpl; [reflexivity|congruence|].
  apply N.eqb_neq in Hq. rewrite Hq. reflexivity.
Qed.

Lemma fold_values_Forall (P : jsstring -> Prop) line st :
  (forall s, P (trim s)) ->
  Forall P (values st) ->
  Forall P (values (fold_left parseCSVLine_step line st)).
Proof.
  intros HP. revert st.
  induction line as [|ch line IH]; intros st Hst; simpl; [exact Hst|].
  apply IH.
  loop_step st ch Hq Hi Hc;
    simpl; auto.
  apply Forall_app. split; [exact Hst|]. constructor; [apply HP|constructor].
Qed.

Lemma fold_no_quote line st :
  Forall (fun f => QUOTE ∉ f) (values st) -> QUOTE ∉ current st ->
  Forall (fun f => QUOTE ∉ f) (values (fold_left parseCSVLine_step line st)) /\
  QUOTE ∉ current (fold_left parseCSVLine_step line st).
Proof.
  revert st.
  induction line as [|ch line IH]; intros st Hv Hc; simpl; [auto|].
  loop_step st ch Hq Hi Hc';
    apply IH; simpl; auto.
  - apply Forall_app. split; [exact Hv|].
    constructor; [|constructor]. intros H. apply Hc. apply trim_elem, H.
  - apply not_elem_of_nil.
  - intros H. apply elem_of_app in H as [H|H]; [auto|].
    apply list_elem_of_singleton in H. congruence.
Qed.

Lemma fold_quoted_run rest v cur :
  QUOTE ∉ rest ->
  fold_left parseCSVLine_step rest (LineState v cur true)
  = LineState v (cur ++ rest) true.
Proof.
  revert cur. induction rest as [|ch rest IH]; intros cur Hn; simpl.
  - rewrite app_nil_r. reflexivity.
  - apply not_elem_of_cons in Hn as [Hne Hn].
    destruct (step_cases (LineState v cur true) ch)
      as [[-> _]|[(_ & _ & Hi & _)|(_ & _ & ->)]];
      [congruence|discriminate|].
    simpl. rewrite IH by exact Hn. rewrite <- app_assoc. reflexivity.
Qed.

Lemma raw_fields_not_nil quoted line : raw_fields quoted line <> [].
Proof.
  revert quoted. induction line as [|c l IH]; intros quoted; simpl;
    [discriminate|].
  destruct (c =? QUOTE); [apply IH|].
  destruct ((c =? COMMA) && negb quoted); [discriminate|].
  destruct (raw_fields quoted l); discriminate.
Qed.

(** The loop, started in any state, pushes the trimmed raw fields of the
    rest of the line, the first of them continuing [current]. *)
Lemma fold_raw_fields line st :
  values (fold_left parseCSVLine_step line st)
  ++ [trim (current (fold_left parseCSVLine_step line st))]
  = values st
    ++ map trim
         match raw_fields (inQuotes st) line with
         | f :: fs => (current st ++ f) :: fs
         | [] => []
         end.
Proof.
  revert st. induction line as [|ch line IH]; intros st.
  - simpl. rewrite app_nil_r. reflexivity.
  - cbn [fold_left]. rewrite IH. clear IH.
    pose proof (raw_fields_not_nil (inQuotes st) line) as Hne.
    loop_step st ch Hq Hi Hc; cbn [values current inQuotes].
    + simpl. reflexivity.
    + rewrite Hi in *. simpl.
      destruct (raw_fields false line) as [|f fs]; [congruence|].
      rewrite app_nil_r, <- app_assoc. reflexivity.
    + cbn [raw_fields]. apply N.eqb_neq in Hq. rewrite Hq.
      replace ((ch =? COMMA) && negb (inQuotes st)) with false.
      2:{ destruct Hc as [Hc| ->]; [|symmetry; apply andb_false_r].
          apply N.eqb_neq in Hc. rewrite Hc. reflexivity. }
      destruct (raw_fields (inQuotes st) line) as [|f fs]; [congruence|].
      rewrite <- app_assoc. reflexivity.
Qed.

End RowParser.

(** C9.  For every line, [parseCSVLine] returns the fields of the line in
    their order, each trimmed; they are as many as one plus the number of
    commas outside quoted mode; and a line whose last quote is never closed
    still yields its final field: the text accumulated before and after that
    quote, trimmed. *)
Theorem parseCSVLine_fields (line : jsstring) :
  parseCSVLine line = map trim (raw_fields false line) /\
  length (parseCSVLine line) = S (unquoted_commas false line) /\
  Forall trimmed (parseCSVLine line) /\
  (forall pre rest,
      line = pre ++ QUOTE :: rest ->
      quoted_after false pre = false ->
      QUOTE ∉ rest ->
      parseCSVLine line
      = values (parseCSVLine_loop pre)
        ++ [trim (current (parseCSVLine_loop pre) ++ rest)]).
Proof.
  split; [|split; [|split]].
  - unfold parseCSVLine, parseCSVLine_loop. rewrite fold_raw_fields. simpl.
    destruct (raw_fields false line); reflexivity.
  - unfold parseCSVLine, parseCSVLine_loop. rewrite length_app, fold_length.
    simpl. lia.
  - unfold parseCSVLine, parseCSVLine_loop. apply Forall_app. split.
    + apply fold_values_Forall; [apply trim_trimmed|constructor].
    + constructor; [apply trim_trimmed|constructor].
  - intros pre rest -> Hpre Hrest.
    unfold parseCSVLine. unfold parseCSVLine_loop at 1 2. rewrite loop_app.
    simpl.
    assert (Hq : inQuotes (parseCSVLine_loop pre) = false).
    { unfold parseCSVLine_loop. rewrite fold_inQuotes. exact Hpre. }
    destruct (step_cases (parseCSVLine_loop pre) QUOTE)
      as [[_ ->]|[(Hne & _)|(Hne & _)]]; [|congruence|congruence].
    rewrite Hq. simpl. rewrite fold_quoted_run by exact Hrest. reflexivity.
Qed.

(** A line that opens a quote after one field and never closes it. *)
Lemma parseCSVLine_fields_witness :
  parseCSVLine (js "a, x" ++ QUOTE :: js "b,c ")
  = [js "a"; js "xb,c"].
Proof.
  destruct (parseCSVLine_fields (js "a, x" ++ QUOTE :: js "b,c "))
    as (_ & _ & _ & H).
  rewrite (H (js "a, x") (js "b,c ")).
  - reflexivity.
  - reflexivity.
  - reflexivity.
  - vm_compute. intros Hin. repeat (apply elem_of_cons in Hin as [Hin|Hin]; [discriminate|]).
    inversion Hin.
Defined.

(** C10.  No field returned by [parseCSVLine] contains a double quote; the
    quoted field a,b comes out without its quotes. *)
Theorem parseCSVLine_strips_quotes (line : jsstring) :
  Forall (fun f => QUOTE ∉ f) (parseCSVLine line) /\
  parseCSVLine (QUOTE :: js "a,b" ++ [QUOTE]) = [js "a,b"].
Proof.
  split; [|reflexivity].
  unfold parseCSVLine, parseCSVLine_loop.
  destruct (fold_no_quote line (LineState [] [] false)) as [Hv Hc];
    [constructor|apply not_elem_of_nil|].
  apply Forall_app. split; [exact Hv|].
  constructor; [|constructor]. intros H. apply Hc, trim_elem, H.
Qed.

(** ** The record extractor *)

Section Extractor.

Lemma includes_false c s : includes c s = false <-> c ∉ s.
Proof.
  unfold includes. induction s as [|a s IH]; simpl.
  - split; [intros _; apply not_elem_of_nil|reflexivity].
  - rewrite orb_false_iff, IH, not_elem_of_cons, N.eqb_neq. reflexivity.
Qed.

Lemma split_app_sep sep h rest :
  sep ∉ h -> split sep (h ++ sep :: rest) = h :: split sep rest.
Proof.
  induction h as [|a h IH]; intros Hn; simpl.
  - rewrite N.eqb_refl. reflexivity.
  - apply not_elem_of_cons in Hn as [Hne Hn].
    destruct (N.eqb_spec a sep) as [->|_]; [congruence|].
    rewrite IH by exact Hn. reflexivity.
Qed.

Lemma split_no_sep sep s : sep ∉ s -> split sep s = [s].
Proof.
  induction s as [|a s IH]; intros Hn; simpl; [reflexivity|].
  apply not_elem_of_cons in Hn as [Hne Hn].
  destruct (N.eqb_spec a sep) as [->|_]; [congruence|].
  rewrite IH by exact Hn. reflexivity.
Qed.

Lemma split_not_nil sep s : split sep s <> [].
Proof.
  destruct s as [|a s]; simpl; [discriminate|].
  destruct (a =? sep); [discriminate|].
  destruct (split sep s); discriminate.
Qed.

Lemma split_snoc_sep sep s : split sep (s ++ [sep]) = split sep s ++ [[]].
Proof.
  induction s as [|a s IH]; simpl.
  - rewrite N.eqb_refl. reflexivity.
  - destruct (a =? sep); rewrite IH; [reflexivity|].
    pose proof (split_not_nil sep s) as Hs.
    destruct (split sep s); [congruence|reflexivity].
Qed.

Lemma split_csv_text header data :
  LF ∉ header -> Forall (fun l => LF ∉ l) data ->
  split LF (csv_text header data) = header :: data.
Proof.
  unfold csv_text. revert header.
  induction data as [|l data IH]; intros header Hh Hd; simpl.
  - rewrite app_nil_r. apply split_no_sep, Hh.
  - inversion Hd as [|? ? Hl Hd']; subst.
    rewrite split_app_sep by exact Hh. f_equal. apply IH; assumption.
Qed.

(** An iteration does not look at the records pushed before it. *)
Lemma parseCSV_iter_app results line :
  parseCSV_iter results line = results ++ parseCSV_iter [] line.
Proof.
  unfold parseCSV_iter.
  destruct (length (parseCSVLine line) <? 7)%nat; [symmetry; apply app_nil_r|].
  destruct (parseInt10 _); [|symmetry; apply app_nil_r].
  destruct (length _ =? 5)%nat; [reflexivity|symmetry; apply app_nil_r].
Qed.

Lemma parseCSV_fold lines acc :
  fold_left parseCSV_iter lines acc
  = acc ++ concat (map (parseCSV_iter []) lines).
Proof.
  revert acc. induction lines as [|l lines IH]; intros acc; simpl.
  - symmetry. apply app_nil_r.
  - rewrite IH, (parseCSV_iter_app acc l), <- app_assoc. reflexivity.
Qed.

Lemma digit_not_space c : is_digit c = true -> is_white_space c = false.
Proof.
  unfold is_digit, is_white_space. intros H.
  apply andb_true_iff in H as [H1 H2].
  apply N.leb_le in H1. apply N.leb_le in H2.
  repeat match goal with
         | |- context [?x =? ?y] =>
             destruct (N.eqb_spec x y); [lia|]
         | |- context [?x <=? ?y] =>
             destruct (N.leb_spec x y); [lia|]
         end.
  reflexivity.
Qed.

Lemma digit_not_sign c : is_digit c = true -> c <> 45 /\ c <> 43.
Proof.
  unfold is_digit. intros H. apply andb_true_iff in H as [H1 H2].
  apply N.leb_le in H1. apply N.leb_le in H2. lia.
Qed.

(** A string that starts with a digit parses. *)
Lemma parseInt10_digit_first c s :
  is_digit c = true -> exists z, parseInt10 (c :: s) = Some z.
Proof.
  intros Hc. unfold parseInt10. simpl trimStart.
  rewrite (digit_not_space c Hc).
  destruct (digit_not_sign c Hc) as [H1 H2].
  apply N.eqb_neq in H1. apply N.eqb_neq in H2. rewrite H1, H2.
  simpl. rewrite Hc. eexists. reflexivity.
Qed.

(** Without a digit nothing is left to parse by [parseInt]. *)
Lemma parseInt10_replace_no_digit s :
  existsb is_digit s = false -> parseInt10 (replace_non_digits s) = None.
Proof.
  intros H. unfold replace_non_digits.
  assert (E : List.filter is_digit s = []).
  { induction s as [|a s IH]; simpl in *; [reflexivity|].
    apply orb_false_iff in H as [Ha Hs]. rewrite Ha. auto. }
  rewrite E. reflexivity.
Qed.

Lemma parseInt10_replace_digit s :
  existsb is_digit s = true ->
  exists z, parseInt10 (replace_non_digits s) = Some z.
Proof.
  intros H. unfold replace_non_digits.
  induction s as [|a s IH]; simpl in *; [discriminate|].
  destruct (is_digit a) eqn:Ha.
  - apply parseInt10_digit_first, Ha.
  - apply IH. exact H.
Qed.

Lemma omap_length_filter (l : list jsstring) :
  length (omap parseInt10 l)
  = length (List.filter (fun f => negb (Number_isNaN (parseInt10 f))) l).
Proof.
  induction l as [|a l IH]; simpl; [reflexivity|].
  destruct (parseInt10 a); simpl; [f_equal|]; exact IH.
Qed.

Lemma omap_length_all (l : list jsstring) :
  forallb (fun f => negb (Number_isNaN (parseInt10 f))) l = true ->
  length (omap parseInt10 l) = length l.
Proof.
  induction l as [|a l IH]; simpl; [reflexivity|].
  intros H. apply andb_true_iff in H as [Ha Hl].
  destruct (parseInt10 a); simpl in *; [|discriminate].
  f_equal. exact (IH Hl).
Qed.

Lemma slice_2_7_length {A} (row : list A) :
  (7 <= length row)%nat -> length (slice 2 7 row) = 5%nat.
Proof.
  intros H. unfold slice. rewrite length_take, length_drop. lia.
Qed.

Lemma well_formed_line_record line :
  well_formed_line line = true ->
  exists r, parseCSV_iter [] line = [r] /\ length (numbers r) = 5%nat.
Proof.
  unfold well_formed_line, parseCSV_iter. intros H.
  apply andb_true_iff in H as [H H4].
  apply andb_true_iff in H as [H H3].
  apply andb_true_iff in H as [_ H2].
  apply Nat.leb_le in H2.
  destruct (Nat.ltb_spec (length (parseCSVLine line)) 7) as [Hlt|_]; [lia|].
  destruct (parseInt10_replace_digit _ H3) as [dn ->].
  assert (Hn : length (omap parseInt10 (slice 2 7 (parseCSVLine line))) = 5%nat).
  { rewrite omap_length_all by exact H4. apply slice_2_7_length, H2. }
  rewrite Hn. simpl. eexists. split; [reflexivity|]. exact Hn.
Qed.

Lemma well_formed_line_nonempty line :
  well_formed_line line = true -> line <> [].
Proof. intros H ->. discriminate. Qed.

Lemma well_formed_line_one_line line :
  well_formed_line line = true -> LF ∉ line.
Proof.
  unfold well_formed_line. intros H.
  apply andb_true_iff in H as [H _].
  apply andb_true_iff in H as [H _].
  apply andb_true_iff in H as [H _].
  apply negb_true_iff in H. apply includes_false, H.
Qed.

Lemma filter_nonempty_id (ls : list jsstring) :
  Forall (fun l => l <> []) ls ->
  List.filter (fun l => negb (Nat.eqb (length l) 0)) ls = ls.
Proof.
  induction 1 as [|l ls Hl _ IH]; simpl; [reflexivity|].
  destruct l; [congruence|]. simpl. rewrite IH. reflexivity.
Qed.

Lemma csv_lines_trailing text :
  csv_lines (text ++ [LF]) = csv_lines text.
Proof.
  unfold csv_lines. rewrite split_snoc_sep, List.filter_app. simpl.
  apply app_nil_r.
Qed.

Lemma csv_lines_csv_text header data :
  header <> [] -> LF ∉ header ->
  Forall (fun l => l <> [] /\ LF ∉ l) data ->
  csv_lines (csv_text header data) = header :: data.
Proof.
  intros Hne Hh Hd. unfold csv_lines.
  rewrite split_csv_text;
    [|exact Hh|eapply Forall_impl; [exact Hd|intros l [_ Hl]; exact Hl]].
  apply filter_nonempty_id. constructor; [exact Hne|].
  eapply Forall_impl; [exact Hd|]. intros l [Hl _]. exact Hl.
Qed.

End Extractor.

Section ExtractorText.

Lemma parseCSV_lines text :
  parseCSV text = concat (map (parseCSV_iter []) (drop 1 (csv_lines text))).
Proof. unfold parseCSV. apply parseCSV_fold. Qed.

Lemma parseCSV_header_line header line :
  header <> [] -> LF ∉ header -> LF ∉ line ->
  parseCSV (header ++ LF :: line) = parseCSV_iter [] line.
Proof.
  intros Hne Hh Hl. rewrite parseCSV_lines. unfold csv_lines.
  rewrite split_app_sep, split_no_sep by assumption.
  destruct header as [|c header]; [congruence|].
  destruct line as [|d line]; simpl; [reflexivity|apply app_nil_r].
Qed.

Lemma padStart0_two_digits s : padStart0 2 s = two_digits s.
Proof. destruct s as [|a [|b s]]; reflexivity. Qed.

Lemma isoDate_of_dmy d m y :
  SLASH ∉ d -> SLASH ∉ m -> SLASH ∉ y ->
  isoDate_of (d ++ SLASH :: m ++ SLASH :: y)
  = y ++ js "-" ++ two_digits m ++ js "-" ++ two_digits d.
Proof.
  intros Hd Hm Hy. unfold isoDate_of.
  rewrite split_app_sep, split_app_sep, split_no_sep by assumption.
  rewrite <- !padStart0_two_digits. reflexivity.
Qed.

Lemma includes_split_length c s :
  includes c s = true -> (2 <= length (split c s))%nat.
Proof.
  unfold includes. induction s as [|a s IH]; simpl; [discriminate|].
  rewrite N.eqb_sym.
  destruct (a =? c); simpl.
  - intros _. pose proof (split_not_nil c s). destruct (split c s); simpl; [congruence|lia].
  - intros H. specialize (IH H). destruct (split c s); simpl in *; lia.
Qed.

End ExtractorText.

(** C1.  After any header line, the data line
    1234,01/02/2023,10,20,30,40,50 gives exactly the record with draw number
    1234, date 2023-02-01 and numbers 10, 20, 30, 40, 50; and a date
    day/month/year is rewritten as year-month-day, month and day padded with
    zeros to two digits. *)
Theorem parseCSV_sample_line (header : jsstring) :
  header <> [] -> LF ∉ header ->
  parseCSV (header ++ LF :: js "1234,01/02/2023,10,20,30,40,50")
  = [mkDraw (JNum 1234) (JStr (js "2023-02-01")) [10; 20; 30; 40; 50]%Z] /\
  (forall d m y, SLASH ∉ d -> SLASH ∉ m -> SLASH ∉ y ->
     isoDate_of (d ++ SLASH :: m ++ SLASH :: y)
     = y ++ js "-" ++ two_digits m ++ js "-" ++ two_digits d).
Proof.
  intros Hne Hh. split; [|apply isoDate_of_dmy].
  rewrite parseCSV_header_line; [reflexivity|assumption..|].
  apply includes_false. reflexivity.
Qed.

Lemma parseCSV_sample_line_witness :
  parseCSV (js "Concurso,Data,N1,N2,N3,N4,N5" ++ LF
              :: js "1234,01/02/2023,10,20,30,40,50")
  = [mkDraw (JNum 1234) (JStr (js "2023-02-01")) [10; 20; 30; 40; 50]%Z] /\
  isoDate_of (js "1/2/2023") = js "2023-02-01".
Proof.
  destruct (parseCSV_sample_line (js "Concurso,Data,N1,N2,N3,N4,N5"))
    as [H1 H2].
  - discriminate.
  - apply includes_false. reflexivity.
  - split; [exact H1|].
    apply (H2 (js "1") (js "2") (js "2023")); apply includes_false; reflexivity.
Defined.

(** C2.  A header line followed by N well-formed data lines, with or without
    a final line feed, gives exactly N records with 5 numbers each, the i-th
    record being the one extracted from the i-th data line. *)
Theorem parseCSV_well_formed
    (header : jsstring) (data : list jsstring) (trailing : bool) :
  header <> [] -> LF ∉ header ->
  Forall (fun l => well_formed_line l = true) data ->
  let recs :=
    parseCSV (csv_text header data ++ (if trailing then [LF] else [])) in
  length recs = length data /\
  Forall (fun r => length (numbers r) = 5%nat) recs /\
  Forall2 (fun l r => parseCSV_iter [] l = [r]) data recs.
Proof.
  intros Hne Hh Hd recs.
  assert (E : recs = concat (map (parseCSV_iter []) data)).
  { unfold recs. rewrite parseCSV_lines.
    assert (L : csv_lines (csv_text header data ++ (if trailing then [LF] else []))
                = header :: data).
    { destruct trailing; [rewrite csv_lines_trailing|rewrite app_nil_r];
        apply csv_lines_csv_text; try assumption;
        (eapply Forall_impl; [exact Hd|]); intros l Hl;
        (split; [apply well_formed_line_nonempty|apply well_formed_line_one_line]);
        exact Hl. }
    rewrite L. reflexivity. }
  rewrite E. clear E recs.
  induction Hd as [|l data Hl Hd IH]; simpl.
  - repeat split; constructor.
  - destruct (well_formed_line_record l Hl) as (r & Er & Hr).
    destruct IH as (IH1 & IH2 & IH3). rewrite Er. simpl.
    repeat split; [congruence|constructor; assumption|].
    constructor; [exact Er|exact IH3].
Qed.

Lemma parseCSV_well_formed_witness :
  let recs :=
    parseCSV (csv_text (js "Concurso,Data,N1,N2,N3,N4,N5")
                [js "12,01/02/2023,1,2,3,4,5"; js "n. 13,2023-02-03,6,7,8,9,10,x"]
              ++ [LF]) in
  length recs = 2%nat /\
  Forall (fun r => length (numbers r) = 5%nat) recs /\
  Forall2 (fun l r => parseCSV_iter [] l = [r])
    [js "12,01/02/2023,1,2,3,4,5"; js "n. 13,2023-02-03,6,7,8,9,10,x"] recs.
Proof.
  apply (parseCSV_well_formed (js "Concurso,Data,N1,N2,N3,N4,N5")
           [js "12,01/02/2023,1,2,3,4,5"; js "n. 13,2023-02-03,6,7,8,9,10,x"]
           true).
  - discriminate.
  - apply includes_false. reflexivity.
  - repeat constructor.
Defined.

(** C3.  A data line with fewer than 7 fields, or no digit in its first
    field, or fewer than 5 parsing fields among the fields 2..6, adds no
    record: the iteration leaves the array as it was, and a text made of a
    header and that line gives no record. *)
Theorem parseCSV_rejects (line : jsstring) :
  rejected_line line ->
  (forall results, parseCSV_iter results line = results) /\
  (forall header, header <> [] -> LF ∉ header -> LF ∉ line ->
     parseCSV (header ++ LF :: line) = []).
Proof.
  intros Hrej.
  assert (Hiter : forall results, parseCSV_iter results line = results).
  { intros results. unfold rejected_line in Hrej. unfold parseCSV_iter.
    destruct (Nat.ltb_spec (length (parseCSVLine line)) 7) as [|Hlen];
      [reflexivity|].
    destruct Hrej as [Hrej|[Hrej|Hrej]]; [lia| |].
    - rewrite (parseInt10_replace_no_digit _ Hrej). reflexivity.
    - destruct (parseInt10 _); [|reflexivity].
      rewrite omap_length_filter. fold (parseable_fields (parseCSVLine line)).
      destruct (Nat.eqb_spec (parseable_fields (parseCSVLine line)) 5);
        [lia|reflexivity]. }
  split; [exact Hiter|].
  intros header Hne Hh Hl. rewrite parseCSV_header_line by assumption.
  apply Hiter.
Qed.

(** A line with only 4 numeric fields among the 5 expected ones. *)
Lemma parseCSV_rejects_witness :
  parseCSV (js "Concurso,Data,N1,N2,N3,N4,N5" ++ LF
              :: js "1234,01/02/2023,10,20,x,40,50") = [].
Proof.
  apply (parseCSV_rejects (js "1234,01/02/2023,10,20,x,40,50")).
  - right. right. vm_compute. lia.
  - discriminate.
  - apply includes_false. reflexivity.
  - apply includes_false. reflexivity.
Defined.

(** ** The merger *)

Section Merger.
Context {host : Host}.

Implicit Types (L R K : list DrawRecord) (sr : DrawRecord).

Lemma loose_eq_refl (v : jsval) : loose_eq v v = true.
Proof.
  destruct v as [| |b|z|s]; simpl; try reflexivity.
  - destruct b; reflexivity.
  - apply Z.eqb_refl.
  - apply bool_decide_eq_true. reflexivity.
Qed.

Lemma find_shares K sr :
  List.find (fun r => loose_eq (drawNumber r) (drawNumber sr)) K = None
  <-> shares_drawNumber K sr = false.
Proof.
  unfold shares_drawNumber. induction K as [|r K IH]; simpl; [tauto|].
  destruct (loose_eq (drawNumber r) (drawNumber sr)); simpl; [|exact IH].
  split; discriminate.
Qed.

Lemma merge_iter_cases K sr :
  (shares_drawNumber K sr = true /\ merge_iter K sr = K) \/
  (shares_drawNumber K sr = false /\ merge_iter K sr = K ++ [sr]).
Proof.
  unfold merge_iter.
  destruct (List.find _ K) eqn:E.
  - left. split; [|reflexivity].
    destruct (shares_drawNumber K sr) eqn:S; [reflexivity|].
    apply find_shares in S. congruence.
  - right. split; [|reflexivity]. apply find_shares, E.
Qed.

Lemma shares_app K1 K2 sr :
  shares_drawNumber (K1 ++ K2) sr
  = shares_drawNumber K1 sr || shares_drawNumber K2 sr.
Proof. apply existsb_app. Qed.

Lemma merge_fold_fresh L K R :
  fold_left merge_iter R (L ++ K) = L ++ K ++ remote_fresh L K R.
Proof.
  revert K. induction R as [|sr R IH]; intros K; simpl.
  - rewrite app_nil_r. reflexivity.
  - destruct (merge_iter_cases (L ++ K) sr) as [[S ->]|[S ->]];
      rewrite shares_app in S; rewrite S.
    + apply IH.
    + rewrite <- app_assoc, IH, <- app_assoc. reflexivity.
Qed.

(** With no two remote records sharing a draw number, nothing kept earlier
    can hide a later record. *)
Lemma remote_fresh_only L K R :
  Forall (fun sr => shares_drawNumber K sr = false) R ->
  ForallOrdPairs
    (fun r sr => loose_eq (drawNumber r) (drawNumber sr) = false) R ->
  remote_fresh L K R = remote_only L R.
Proof.
  unfold remote_only. revert K.
  induction R as [|sr R IH]; intros K HK HR; simpl; [reflexivity|].
  inversion HK as [|? ? Hsr HK']; subst.
  inversion HR as [|? ? Hfst HR']; subst.
  rewrite Hsr, orb_false_r.
  destruct (shares_drawNumber L sr); simpl.
  - apply IH; assumption.
  - f_equal. apply IH; [|assumption].
    rewrite Forall_forall in HK'. rewrite List.Forall_forall in Hfst.
    apply Forall_forall. intros x Hx.
    rewrite shares_app, (HK' x Hx). simpl.
    rewrite (Hfst x); [reflexivity|]. apply list_elem_of_In, Hx.
Qed.

Lemma merge_shares_mono R K sr :
  shares_drawNumber K sr = true ->
  shares_drawNumber (fold_left merge_iter R K) sr = true.
Proof.
  revert K. induction R as [|x R IH]; intros K H; simpl; [exact H|].
  apply IH.
  destruct (merge_iter_cases K x) as [[_ ->]|[_ ->]]; [exact H|].
  rewrite shares_app, H. reflexivity.
Qed.

Lemma merge_shares_all R K :
  Forall (fun sr => shares_drawNumber (fold_left merge_iter R K) sr = true) R.
Proof.
  revert K. induction R as [|x R IH]; intros K; simpl; constructor; [|apply IH].
  apply merge_shares_mono.
  destruct (merge_iter_cases K x) as [[S ->]|[_ ->]]; [exact S|].
  rewrite shares_app. unfold shares_drawNumber at 2. simpl.
  rewrite loose_eq_refl. apply orb_true_r.
Qed.

Lemma merge_fixed R K :
  Forall (fun sr => shares_drawNumber K sr = true) R ->
  fold_left merge_iter R K = K.
Proof.
  induction 1 as [|x R Hx _ IH]; simpl; [reflexivity|].
  destruct (merge_iter_cases K x) as [[_ ->]|[S _]]; [exact IH|congruence].
Qed.

(** C4, as amended.  The merge is the local records in their order, followed
    in remote order by the remote records whose draw number is loosely equal
    neither to that of a local record nor to that of a remote record appended
    before them.  When no two remote records have loosely equal draw numbers,
    these are the remote records that share no draw number with a local
    record. *)
Theorem mergeResults_local_then_fresh L R :
  mergeResults L R = L ++ remote_fresh L [] R /\
  (ForallOrdPairs
     (fun r sr => loose_eq (drawNumber r) (drawNumber sr) = false) R ->
   mergeResults L R = L ++ remote_only L R).
Proof.
  assert (E : mergeResults L R = L ++ remote_fresh L [] R).
  { unfold mergeResults. rewrite <- (app_nil_r L) at 1.
    apply (merge_fold_fresh L [] R). }
  split; [exact E|]. intros HR. rewrite E. f_equal.
  apply remote_fresh_only; [|exact HR].
  apply Forall_forall. reflexivity.
Qed.

(** C5.  Merging the remote records a second time changes nothing. *)
Theorem mergeResults_idempotent L R :
  mergeResults (mergeResults L R) R = mergeResults L R /\
  length (mergeResults (mergeResults L R) R) = length (mergeResults L R).
Proof.
  assert (E : mergeResults (mergeResults L R) R = mergeResults L R).
  { unfold mergeResults. apply merge_fixed, merge_shares_all. }
  split; [exact E|]. rewrite E. reflexivity.
Qed.

End Merger.

(** The example of the specification: draw 5 is kept in its local version,
    draw 6 comes from the remote records. *)
Lemma mergeResults_local_then_fresh_witness :
  @mergeResults example_host
    [mkDraw (JNum 5) (JStr (js "2024-01-05")) [1; 2; 3; 4; 5]%Z]
    [mkDraw (JNum 5) (JStr (js "2024-01-05")) [6; 7; 8; 9; 10]%Z;
     mkDraw (JNum 6) (JStr (js "2024-01-06")) [11; 12; 13; 14; 15]%Z]
  = [mkDraw (JNum 5) (JStr (js "2024-01-05")) [1; 2; 3; 4; 5]%Z;
     mkDraw (JNum 6) (JStr (js "2024-01-06")) [11; 12; 13; 14; 15]%Z].
Proof.
  rewrite (proj2 (@mergeResults_local_then_fresh example_host
    [mkDraw (JNum 5) (JStr (js "2024-01-05")) [1; 2; 3; 4; 5]%Z]
    [mkDraw (JNum 5) (JStr (js "2024-01-05")) [6; 7; 8; 9; 10]%Z;
     mkDraw (JNum 6) (JStr (js "2024-01-06")) [11; 12; 13; 14; 15]%Z])).
  - reflexivity.
  - repeat constructor.
Defined.

(** A sheet with two data lines for draw 6, and no local record: only the
    first of the two records is appended, where the claim as stated keeps
    every remote record whose draw number no local record shares. *)
Lemma mergeResults_remote_duplicates :
  @mergeResults example_host []
    (parseCSV (js "Concurso,Data,N1,N2,N3,N4,N5" ++ LF
                 :: js "6,06/01/2024,1,2,3,4,5" ++ LF
                 :: js "6,06/01/2024,6,7,8,9,10"))
  <> [] ++ @remote_only example_host []
       (parseCSV (js "Concurso,Data,N1,N2,N3,N4,N5" ++ LF
                    :: js "6,06/01/2024,1,2,3,4,5" ++ LF
                    :: js "6,06/01/2024,6,7,8,9,10")).
Proof. vm_compute. discriminate. Qed.

(** ** The renderer *)

Section Renderer.
Context {host : Host}.

Implicit Types (r x y : DrawRecord) (l : list DrawRecord).

Lemma SortCompare_keys x y a b :
  draw_key x = Some a -> draw_key y = Some b -> SortCompare x y = (b - a)%Z.
Proof.
  unfold SortCompare, comparefn, draw_key. intros -> ->. reflexivity.
Qed.

Lemma sort_insert_perm x l : sort_insert x l ≡ₚ x :: l.
Proof.
  induction l as [|y l IH]; simpl; [reflexivity|].
  destruct (SortCompare x y <=? 0)%Z; [reflexivity|].
  rewrite IH. apply Permutation_swap.
Qed.

Lemma Array_sort_perm l : Array_sort l ≡ₚ l.
Proof.
  induction l as [|x l IH]; simpl; [reflexivity|].
  rewrite sort_insert_perm, IH. reflexivity.
Qed.

Lemma before_trans x y z : before x y -> before y z -> before x z.
Proof.
  intros (a & b & Ha & Hb & Hab) (b' & c & Hb' & Hc & Hbc).
  exists a, c. repeat split; [assumption..|].
  rewrite Hb in Hb'. injection Hb' as <-. lia.
Qed.

Lemma sort_insert_sorted x l :
  is_Some (draw_key x) -> Forall (fun y => is_Some (draw_key y)) l ->
  StronglySorted before l -> StronglySorted before (sort_insert x l).
Proof.
  intros [a Ha] Hl Hs. induction Hs as [|y l Hs IH Hy]; simpl.
  - repeat constructor.
  - inversion Hl as [|? ? [b Hb] Hl']; subst.
    rewrite (SortCompare_keys x y a b Ha Hb).
    destruct (Z.leb_spec (b - a) 0) as [Hle|Hgt].
    + assert (Hxy : before x y) by (exists a, b; repeat split; [assumption..|lia]).
      constructor; [constructor; assumption|].
      constructor; [exact Hxy|].
      eapply Forall_impl; [exact Hy|]. intros z Hz.
      eapply before_trans; eassumption.
    + constructor; [apply IH, Hl'|].
      rewrite sort_insert_perm. constructor; [|exact Hy].
      exists b, a. repeat split; [assumption..|lia].
Qed.

Lemma Array_sort_sorted l :
  Forall (fun y => is_Some (draw_key y)) l ->
  StronglySorted before (Array_sort l).
Proof.
  induction 1 as [|x l Hx Hl IH]; simpl; [constructor|].
  apply sort_insert_sorted; [exact Hx| |exact IH].
  rewrite Array_sort_perm. exact Hl.
Qed.

(** Records with equal numbers keep their relative order: the sort moves a
    record only past records with a strictly larger number. *)
Lemma Array_sort_stable l k :
  Forall (fun y => is_Some (draw_key y)) l ->
  List.filter (fun y => bool_decide (draw_key y = Some k)) (Array_sort l)
  = List.filter (fun y => bool_decide (draw_key y = Some k)) l.
Proof.
  induction 1 as [|x l [a Ha] Hl IH]; simpl; [reflexivity|].
  rewrite <- IH.
  assert (Hs : Forall (fun y => is_Some (draw_key y)) (Array_sort l))
    by (rewrite Array_sort_perm; exact Hl).
  clear IH Hl. induction Hs as [|y s [b Hb] Hs IHs]; simpl; [reflexivity|].
  rewrite (SortCompare_keys x y a b Ha Hb).
  destruct (Z.leb_spec (b - a) 0) as [Hle|Hgt]; simpl; [reflexivity|].
  rewrite IHs. rewrite Ha, Hb.
  destruct (bool_decide_reflect (Some a = Some k)) as [Ea|_];
  destruct (bool_decide_reflect (Some b = Some k)) as [Eb|_]; try reflexivity.
  injection Ea as ->. injection Eb as ->. lia.
Qed.

(** A descending arrangement that keeps the relative order of records with
    equal numbers is unique: whatever comparisons the engine makes, it
    returns [Array_sort l]. *)
Lemma descending_stable_unique l1 l2 :
  Forall (fun y => is_Some (draw_key y)) l1 ->
  Forall (fun y => is_Some (draw_key y)) l2 ->
  descending l1 -> descending l2 ->
  (forall k, List.filter (fun y => bool_decide (draw_key y = Some k)) l1
             = List.filter (fun y => bool_decide (draw_key y = Some k)) l2) ->
  l1 = l2.
Proof.
  intros H1. revert l2.
  induction H1 as [|x l1 [a Ha] H1 IH]; intros l2 H2 S1 S2 Hf.
  - destruct H2 as [|y l2 [b Hb] H2]; [reflexivity|].
    specialize (Hf b). simpl in Hf.
    rewrite bool_decide_eq_true_2 in Hf by exact Hb. discriminate.
  - destruct H2 as [|y l2 [b Hb] H2].
    { specialize (Hf a). simpl in Hf.
      rewrite bool_decide_eq_true_2 in Hf by exact Ha. discriminate. }
    apply StronglySorted_inv in S1 as [S1 F1].
    apply StronglySorted_inv in S2 as [S2 F2].
    assert (Hba : (b <= a)%Z).
    { assert (Hy : In y (x :: l1)).
      { pose proof (Hf b) as E.
        assert (Hin : In y (List.filter
                      (fun y => bool_decide (draw_key y = Some b)) (y :: l2))).
        { apply List.filter_In. split; [left; reflexivity|].
          apply bool_decide_eq_true_2, Hb. }
        rewrite <- E in Hin. apply List.filter_In in Hin. tauto. }
      destruct Hy as [<-|Hy]; [rewrite Ha in Hb; injection Hb; lia|].
      rewrite List.Forall_forall in F1.
      destruct (F1 y Hy) as (a' & b' & Ea & Eb & Hle).
      rewrite Ha in Ea. rewrite Hb in Eb. injection Ea as <-. injection Eb as <-.
      exact Hle. }
    assert (Hab : (a <= b)%Z).
    { assert (Hx : In x (y :: l2)).
      { pose proof (Hf a) as E.
        assert (Hin : In x (List.filter
                      (fun y => bool_decide (draw_key y = Some a)) (x :: l1))).
        { apply List.filter_In. split; [left; reflexivity|].
          apply bool_decide_eq_true_2, Ha. }
        rewrite E in Hin. apply List.filter_In in Hin. tauto. }
      destruct Hx as [<-|Hx]; [rewrite Ha in Hb; injection Hb; lia|].
      rewrite List.Forall_forall in F2.
      destruct (F2 x Hx) as (b' & a' & Eb & Ea & Hle).
      rewrite Ha in Ea. rewrite Hb in Eb. injection Ea as <-. injection Eb as <-.
      exact Hle. }
    assert (b = a) by lia. subst b.
    pose proof (Hf a) as Ea. simpl in Ea.
    rewrite !bool_decide_eq_true_2 in Ea by assumption.
    injection Ea as -> _. f_equal.
    apply IH; try assumption.
    intros k. specialize (Hf k). simpl in Hf.
    destruct (bool_decide (draw_key y = Some k)); [injection Hf; auto|exact Hf].
Qed.

Lemma Array_sort_determined l l' :
  Forall (fun y => is_Some (draw_key y)) l ->
  l' ≡ₚ l -> descending l' ->
  (forall k, List.filter (fun y => bool_decide (draw_key y = Some k)) l'
             = List.filter (fun y => bool_decide (draw_key y = Some k)) l) ->
  l' = Array_sort l.
Proof.
  intros Hl Hp Hs Hf. apply descending_stable_unique; try assumption.
  - rewrite Hp. exact Hl.
  - rewrite Array_sort_perm. exact Hl.
  - apply Array_sort_sorted, Hl.
  - intros k. rewrite Hf, Array_sort_stable by exact Hl. reflexivity.
Qed.

Lemma deref_alloc (h : list (list DrawRecord)) a : deref (h ++ [a]) (length h) = a.
Proof.
  unfold deref. rewrite lookup_app_r by lia.
  replace (length h - length h)%nat with 0%nat by lia. reflexivity.
Qed.

Lemma deref_sorted (h : list (list DrawRecord)) a s :
  deref (<[length h := s]> (h ++ [a])) (length h) = s.
Proof.
  unfold deref. rewrite list_lookup_insert_eq; [reflexivity|].
  rewrite length_app. simpl. lia.
Qed.

End Renderer.

Section Display.
Context {host : Host}.

Lemma formatDate_falsy (v : jsval) :
  ToBoolean v = false -> formatDate v = JStr (js "Desconhecida").
Proof. unfold formatDate. intros ->. reflexivity. Qed.

Lemma formatDate_string (s : jsstring) :
  s <> [] ->
  formatDate (JStr s)
  = JStr (match Date_parse s with
          | Some t => format_date t
          | None => js "Invalid Date"
          end).
Proof.
  intros Hs. unfold formatDate. destruct s as [|c s]; [congruence|].
  reflexivity.
Qed.

(** The [catch] branch of [formatDate] is never taken: the body of the
    [try] always completes normally. *)
Lemma formatDate_body_normal (v : jsval) :
  exists s,
    (date ← new_Date v; s ← toLocaleDateString date; mret (JStr s))
    = Normal (JStr s).
Proof. eexists. reflexivity. Qed.

(** C7 fails on the code.  A non-empty date string that does not parse is
    shown as the text Invalid Date, not as the string itself. *)
Theorem formatDate_unparseable (s : jsstring) :
  s <> [] -> Date_parse s = None ->
  formatDate (JStr s) = JStr (js "Invalid Date").
Proof. intros Hs Hp. rewrite formatDate_string by exact Hs. rewrite Hp. reflexivity. Qed.

(** C8.  An empty date string and an absent date ([undefined] or [null])
    are shown as Desconhecida, which is neither the empty string nor the
    text Invalid Date. *)
Theorem formatDate_unknown :
  formatDate (JStr []) = JStr (js "Desconhecida") /\
  formatDate JUndefined = JStr (js "Desconhecida") /\
  formatDate JNull = JStr (js "Desconhecida") /\
  JStr (js "Desconhecida") <> JStr [] /\
  JStr (js "Desconhecida") <> JStr (js "Invalid Date").
Proof. repeat split; discriminate. Qed.

(** C6.  For a non-empty array of records whose draw numbers are numbers,
    [displayResults] completes normally; the records it shows are the input
    in descending order of draw number, the first of them in
    [latestResultEl] and the others in [previousResultsEl]; and every array
    that existed before the call, the input among them, is unchanged. *)
Theorem displayResults_latest_previous
    (w : World) (ref : nat) (input : list DrawRecord) (stamp : jsval) :
  arrays w !! ref = Some input ->
  input <> [] ->
  Forall (fun r => is_Some (draw_key r)) input ->
  exists latest previous w',
    displayResults w (mkData (Some ref) stamp) = Normal w' /\
    latest :: previous ≡ₚ input /\
    descending (latest :: previous) /\
    latestResultEl (dom w') = createLatestResultHTML latest /\
    previousResultsEl (dom w') = previous_html previous /\
    (forall ref' a, arrays w !! ref' = Some a -> arrays w' !! ref' = Some a).
Proof.
  intros Href Hne Hnum.
  pose proof (Array_sort_perm input) as Hperm.
  pose proof (Array_sort_sorted input Hnum) as Hsort.
  destruct (Array_sort input) as [|latest previous] eqn:Esort.
  { apply Permutation_nil_l in Hperm. congruence. }
  exists latest, previous.
  assert (Hd : deref (arrays w) ref = input)
    by (unfold deref; rewrite Href; reflexivity).
  unfold displayResults. cbn [results lastUpdated]. rewrite Hd.
  replace (negb (bool_decide (is_Some (Some ref))) || Nat.eqb (length input) 0)
    with false by (destruct input; [congruence|reflexivity]).
  rewrite deref_alloc, !deref_sorted, Esort.
  destruct (ToBoolean stamp); eexists; (split; [reflexivity|]);
    cbn [dom arrays latestResultEl previousResultsEl];
    (repeat split; try assumption; [destruct previous; reflexivity|]);
    intros ref' a Ha;
    pose proof (lookup_lt_Some _ _ _ Ha) as Hlt';
    (rewrite list_lookup_insert_ne by lia);
    (rewrite lookup_app_l by exact Hlt'); exact Ha.
Qed.

End Display.

(** The date TBD of a data line 1234,TBD,1,2,3,4,5 is passed through by the
    extractor and does not parse as a date: the page shows Invalid Date
    where the fallback of [formatDate] was meant to show TBD. *)
Lemma formatDate_unparseable_witness :
  date <$> parseCSV (js "Concurso,Data,N1,N2,N3,N4,N5" ++ LF
                       :: js "1234,TBD,1,2,3,4,5") = [JStr (js "TBD")] /\
  @formatDate example_host (JStr (js "TBD")) = JStr (js "Invalid Date") /\
  @formatDate example_host (JStr (js "TBD")) <> JStr (js "TBD").
Proof.
  split; [reflexivity|].
  assert (H : @formatDate example_host (JStr (js "TBD"))
              = JStr (js "Invalid Date")).
  { apply (@formatDate_unparseable example_host (js "TBD")).
    - discriminate.
    - reflexivity. }
  split; [exact H|]. rewrite H. discriminate.
Defined.

(** The example of the specification: draw numbers 3, 1, 2 are shown as
    3 (latest), then 2 and 1 (previous); the array passed in still reads
    3, 1, 2 after the call. *)
Lemma displayResults_latest_previous_witness :
  let r n := mkDraw (JNum n) (JStr (js "2024-01-05")) [1; 2; 3; 4; 5]%Z in
  let w := mkWorld [[r 3; r 1; r 2]%Z] (mkDom [] [] []) in
  (exists latest previous w',
     @displayResults example_host w (mkData (Some 0%nat) JUndefined)
     = Normal w' /\
     latest :: previous ≡ₚ [r 3; r 1; r 2]%Z /\
     @descending example_host (latest :: previous) /\
     latestResultEl (dom w') = @createLatestResultHTML example_host latest /\
     previousResultsEl (dom w') = @previous_html example_host previous /\
     (forall ref' a, arrays w !! ref' = Some a -> arrays w' !! ref' = Some a)) /\
  @displayResults example_host w (mkData (Some 0%nat) JUndefined)
  = Normal (mkWorld [[r 3; r 1; r 2]%Z; [r 3; r 2; r 1]%Z]
              (mkDom (@createLatestResultHTML example_host (r 3%Z))
                 (@results_grid_html example_host [r 2; r 1]%Z) [])).
Proof.
  intros r w. split.
  - apply (@displayResults_latest_previous example_host w 0%nat
             [r 3; r 1; r 2]%Z JUndefined).
    + reflexivity.
    + discriminate.
    + repeat constructor; eexists; reflexivity.
  - vm_compute. reflexivity.
Defined.

(** ** Further facts about the extractor *)

Section ExtractorNotes.

(** The three grounds are the only ones: any other line adds one record. *)
Lemma parseCSV_iter_accepts results line :
  ~ rejected_line line ->
  exists r, parseCSV_iter results line = results ++ [r] /\
            length (numbers r) = 5%nat.
Proof.
  unfold rejected_line. intros Hacc.
  rewrite parseCSV_iter_app. unfold parseCSV_iter.
  destruct (Nat.ltb_spec (length (parseCSVLine line)) 7) as [Hlt|Hge];
    [tauto|].
  destruct (existsb is_digit (nth 0 (parseCSVLine line) [])) eqn:Hdig;
    [|tauto].
  destruct (parseInt10_replace_digit _ Hdig) as [dn ->].
  assert (Hn : length (omap parseInt10 (slice 2 7 (parseCSVLine line))) = 5%nat).
  { rewrite omap_length_filter.
    fold (parseable_fields (parseCSVLine line)).
    assert (parseable_fields (parseCSVLine line) <= 5)%nat.
    { unfold parseable_fields.
      etransitivity; [apply List.filter_length_le|].
      rewrite (slice_2_7_length (parseCSVLine line) Hge). reflexivity. }
    lia. }
  rewrite Hn. simpl. eexists. split; [reflexivity|exact Hn].
Qed.

(** Empty lines are removed before the first line is skipped: after an empty
    first line, it is the first data line that is taken for the header. *)
Lemma parseCSV_empty_first_line line1 line2 :
  line1 <> [] -> LF ∉ line1 -> LF ∉ line2 ->
  parseCSV (LF :: line1 ++ LF :: line2) = parseCSV_iter [] line2.
Proof.
  intros Hne H1 H2. rewrite <- (parseCSV_header_line line1 line2) by assumption.
  rewrite !parseCSV_lines. unfold csv_lines.
  change (LF :: line1 ++ LF :: line2) with ([] ++ LF :: line1 ++ LF :: line2).
  rewrite (split_app_sep LF []) by apply not_elem_of_nil. reflexivity.
Qed.

End ExtractorNotes.

(** * Further properties of the code *)

(** ** The row parser on whole lines *)

Section RowParserLines.

Lemma parseCSVLine_raw line :
  parseCSVLine line = map trim (raw_fields false line).
Proof.
  unfold parseCSVLine, parseCSVLine_loop. rewrite fold_raw_fields. simpl.
  destruct (raw_fields false line); reflexivity.
Qed.

Lemma raw_fields_no_quote line :
  QUOTE ∉ line -> raw_fields false line = split COMMA line.
Proof.
  induction line as [|c l IH]; intros Hn; simpl; [reflexivity|].
  apply not_elem_of_cons in Hn as [Hc Hl].
  destruct (N.eqb_spec c QUOTE) as [->|_]; [congruence|].
  rewrite andb_true_r, IH by exact Hl. reflexivity.
Qed.

Lemma raw_fields_app_comma q a b :
  quoted_after q a = false ->
  raw_fields q (a ++ COMMA :: b) = raw_fields q a ++ raw_fields false b.
Proof.
  unfold quoted_after. revert q.
  induction a as [|c a IH]; intros q Hq; simpl in *.
  - subst q. reflexivity.
  - destruct (c =? QUOTE); [apply IH, Hq|].
    rewrite (IH q Hq).
    destruct ((c =? COMMA) && negb q); [reflexivity|].
    pose proof (raw_fields_not_nil q a) as Hne.
    destruct (raw_fields q a); [congruence|reflexivity].
Qed.

Lemma raw_fields_quoted f rest :
  QUOTE ∉ f ->
  raw_fields true (f ++ QUOTE :: rest)
  = match raw_fields false rest with
    | g :: gs => (f ++ g) :: gs
    | [] => []
    end.
Proof.
  induction f as [|c f IH]; intros Hn; simpl.
  - destruct (raw_fields false rest); reflexivity.
  - apply not_elem_of_cons in Hn as [Hc Hf].
    destruct (N.eqb_spec c QUOTE) as [->|_]; [congruence|].
    rewrite andb_false_r, IH by exact Hf.
    pose proof (raw_fields_not_nil false rest) as Hne.
    destruct (raw_fields false rest); [congruence|reflexivity].
Qed.

Lemma raw_fields_quoted_join f fs :
  Forall (fun g => QUOTE ∉ g) (f :: fs) ->
  raw_fields false
    (join [COMMA] (map (fun g => QUOTE :: g ++ [QUOTE]) (f :: fs)))
  = f :: fs.
Proof.
  revert f. induction fs as [|g fs IH]; intros f Hq;
    inversion Hq as [|? ? Hf Hfs]; subst.
  - simpl. rewrite app_nil_r.
    change (QUOTE =? QUOTE) with true. cbn match.
    rewrite (raw_fields_quoted f [] Hf). simpl. rewrite app_nil_r. reflexivity.
  - specialize (IH g Hfs).
    change (join [COMMA] (map (fun g => QUOTE :: g ++ [QUOTE]) (f :: g :: fs)))
      with (QUOTE :: (f ++ [QUOTE])
            ++ COMMA :: join [COMMA]
                 (map (fun g => QUOTE :: g ++ [QUOTE]) (g :: fs))).
    rewrite <- app_assoc. cbn [raw_fields app].
    change (QUOTE =? QUOTE) with true. cbn match.
    rewrite (raw_fields_quoted f _ Hf).
    cbn [raw_fields]. change (COMMA =? QUOTE) with false.
    change ((COMMA =? COMMA) && negb false) with true. cbn match.
    rewrite IH, app_nil_r. reflexivity.
Qed.

End RowParserLines.

(** X1.  On a line without double quotes the row parser is a split at the
    commas followed by a trim of every piece. *)
Theorem parseCSVLine_without_quotes (line : jsstring) :
  QUOTE ∉ line -> parseCSVLine line = map trim (split COMMA line).
Proof.
  intros Hn. rewrite parseCSVLine_raw, raw_fields_no_quote by exact Hn.
  reflexivity.
Qed.

Lemma parseCSVLine_without_quotes_witness :
  parseCSVLine (js " 7 , 01/02/2023,,x ")
  = map trim (split COMMA (js " 7 , 01/02/2023,,x ")).
Proof.
  apply (parseCSVLine_without_quotes (js " 7 , 01/02/2023,,x ")).
  apply includes_false. reflexivity.
Defined.

(** X2.  A comma that follows a part of the line whose quotes are closed
    separates: the fields of the whole line are the fields of the part
    before the comma followed by the fields of the part after it. *)
Theorem parseCSVLine_app_comma (a b : jsstring) :
  quoted_after false a = false ->
  parseCSVLine (a ++ COMMA :: b) = parseCSVLine a ++ parseCSVLine b.
Proof.
  intros Hq. rewrite !parseCSVLine_raw, raw_fields_app_comma by exact Hq.
  apply map_app.
Qed.

Lemma parseCSVLine_app_comma_witness :
  parseCSVLine ((QUOTE :: js "a,b" ++ [QUOTE]) ++ COMMA :: js "c,d")
  = parseCSVLine (QUOTE :: js "a,b" ++ [QUOTE]) ++ parseCSVLine (js "c,d").
Proof.
  apply (parseCSVLine_app_comma (QUOTE :: js "a,b" ++ [QUOTE]) (js "c,d")).
  reflexivity.
Defined.

(** X3.  Fields written between double quotes and joined by commas are read
    back, trimmed, whatever commas they contain, as long as they contain no
    double quote. *)
Theorem parseCSVLine_quoted_round_trip (fields : list jsstring) :
  fields <> [] ->
  Forall (fun f => QUOTE ∉ f) fields ->
  parseCSVLine (join [COMMA] (map (fun f => QUOTE :: f ++ [QUOTE]) fields))
  = map trim fields.
Proof.
  intros Hne Hq. destruct fields as [|f fs]; [congruence|].
  rewrite parseCSVLine_raw, raw_fields_quoted_join by exact Hq. reflexivity.
Qed.

Lemma parseCSVLine_quoted_round_trip_witness :
  parseCSVLine
    (join [COMMA]
       (map (fun f => QUOTE :: f ++ [QUOTE]) [js "Rio, RJ"; js " 5 "; js ""]))
  = map trim [js "Rio, RJ"; js " 5 "; js ""].
Proof.
  apply (parseCSVLine_quoted_round_trip [js "Rio, RJ"; js " 5 "; js ""]).
  - discriminate.
  - repeat constructor; apply includes_false; reflexivity.
Defined.

(** ** The extractor on whole texts *)

Section ExtractorTexts.

Lemma digit_prefix_all s : forallb is_digit s = true -> digit_prefix s = s.
Proof.
  induction s as [|c s IH]; simpl; [reflexivity|].
  intros H. apply andb_true_iff in H as [Hc Hs].
  rewrite Hc, IH by exact Hs. reflexivity.
Qed.

Lemma digits_fold_nonneg ds acc :
  forallb is_digit ds = true -> (0 <= acc)%Z ->
  (0 <= fold_left (fun a c => 10 * a + (Z.of_N c - 48)) ds acc)%Z.
Proof.
  revert acc. induction ds as [|c ds IH]; intros acc H Hacc; simpl;
    [exact Hacc|].
  apply andb_true_iff in H as [Hc Hs]. apply IH; [exact Hs|].
  unfold is_digit in Hc. apply andb_true_iff in Hc as [Hc _].
  apply N.leb_le in Hc. lia.
Qed.

Lemma parseInt10_all_digits s :
  forallb is_digit s = true ->
  parseInt10 s = match s with [] => None | _ => Some (digits_value s) end.
Proof.
  intros H. destruct s as [|c s]; [reflexivity|].
  pose proof H as H'. simpl in H'. apply andb_true_iff in H' as [Hc _].
  unfold parseInt10. simpl trimStart. rewrite (digit_not_space c Hc).
  destruct (digit_not_sign c Hc) as [H1 H2].
  apply N.eqb_neq in H1. apply N.eqb_neq in H2. rewrite H1, H2.
  rewrite (digit_prefix_all _ H). reflexivity.
Qed.

Lemma replace_non_digits_all s : forallb is_digit (replace_non_digits s) = true.
Proof.
  unfold replace_non_digits. induction s as [|c s IH]; simpl; [reflexivity|].
  destruct (is_digit c) eqn:Hc; simpl; [rewrite Hc|]; exact IH.
Qed.


Lemma split_app_gen sep a b :
  split sep (a ++ sep :: b) = split sep a ++ split sep b.
Proof.
  induction a as [|c a IH]; simpl.
  - rewrite N.eqb_refl. reflexivity.
  - rewrite IH. destruct (c =? sep); [reflexivity|].
    pose proof (split_not_nil sep a) as Hne.
    destruct (split sep a); [congruence|reflexivity].
Qed.

Lemma parseCSV_iter_length line : (length (parseCSV_iter [] line) <= 1)%nat.
Proof.
  unfold parseCSV_iter.
  destruct (length (parseCSVLine line) <? 7)%nat; [simpl; lia|].
  destruct (parseInt10 _); [|simpl; lia].
  destruct (length _ =? 5)%nat; simpl; lia.
Qed.

(** What every record pushed by an iteration looks like. *)
Lemma parseCSV_iter_record line r :
  r ∈ parseCSV_iter [] line ->
  (exists n, drawNumber r = JNum n /\ (0 <= n)%Z) /\
  (exists s, date r = JStr s) /\
  length (numbers r) = 5%nat.
Proof.
  unfold parseCSV_iter.
  destruct (length (parseCSVLine line) <? 7)%nat;
    [intros H; inversion H|].
  pose proof (replace_non_digits_all (nth 0 (parseCSVLine line) [])) as Hd.
  rewrite (parseInt10_all_digits _ Hd).
  destruct (replace_non_digits (nth 0 (parseCSVLine line) [])) as [|c ds] eqn:E;
    [intros H; inversion H|].
  destruct (Nat.eqb_spec
              (length (omap parseInt10 (slice 2 7 (parseCSVLine line)))) 5)
    as [Hn|_]; [|intros H; inversion H].
  intros H. apply list_elem_of_singleton in H. subst r. simpl.
  repeat split; [|eexists; reflexivity|exact Hn].
  eexists. split; [reflexivity|].
  apply digits_fold_nonneg; [exact Hd|lia].
Qed.

Lemma csv_lines_app text1 text2 :
  csv_lines (text1 ++ LF :: text2) = csv_lines text1 ++ csv_lines text2.
Proof. unfold csv_lines. rewrite split_app_gen. apply List.filter_app. Qed.

Lemma csv_lines_leading text : csv_lines (LF :: text) = csv_lines text.
Proof. exact (csv_lines_app [] text). Qed.

Lemma parseCSV_csv_text header data :
  header <> [] -> LF ∉ header -> Forall (fun l => LF ∉ l) data ->
  parseCSV (csv_text header data) = concat (map (parseCSV_iter []) data).
Proof.
  intros Hne Hh Hd. rewrite parseCSV_lines. unfold csv_lines.
  rewrite split_csv_text by assumption.
  destruct header as [|c header]; [congruence|]. simpl. clear Hd.
  induction data as [|l data IH]; simpl; [reflexivity|].
  destruct l; simpl; [exact IH|]. f_equal. exact IH.
Qed.

End ExtractorTexts.

(** X4.  Whatever the text, every record that [parseCSV] returns has a
    number that is not negative as its draw number, a string as its date and
    exactly 5 numbers. *)
Theorem parseCSV_records_shape (csvText : jsstring) :
  Forall (fun r =>
            (exists n, drawNumber r = JNum n /\ (0 <= n)%Z) /\
            (exists s, date r = JStr s) /\
            length (numbers r) = 5%nat)
    (parseCSV csvText).
Proof.
  rewrite parseCSV_lines. apply List.Forall_concat.
  induction (drop 1 (csv_lines csvText)) as [|line ls IH]; simpl;
    constructor; [|exact IH].
  apply Forall_forall. intros r Hr. eapply parseCSV_iter_record, Hr.
Qed.


(** X6.  Empty lines do not count, wherever they are: a line feed at the
    start of the text, a second line feed after a line feed, and a line feed
    at the end of the text change nothing in what [parseCSV] returns. *)
Theorem parseCSV_empty_lines (text1 text2 : jsstring) :
  parseCSV (LF :: text2) = parseCSV text2 /\
  parseCSV (text1 ++ LF :: LF :: text2) = parseCSV (text1 ++ LF :: text2) /\
  parseCSV (text1 ++ [LF]) = parseCSV text1.
Proof.
  unfold parseCSV. split; [|split].
  - rewrite csv_lines_leading. reflexivity.
  - rewrite !csv_lines_app, csv_lines_leading. reflexivity.
  - rewrite csv_lines_trailing. reflexivity.
Qed.

(** X7.  Every data line is judged on its own: after a header, the records
    of a list of lines are the records of its first part followed by the
    records of its second part, rejected lines included in either. *)
Theorem parseCSV_data_app (header : jsstring) (data1 data2 : list jsstring) :
  header <> [] -> LF ∉ header ->
  Forall (fun l => LF ∉ l) (data1 ++ data2) ->
  parseCSV (csv_text header (data1 ++ data2))
  = parseCSV (csv_text header data1) ++ parseCSV (csv_text header data2).
Proof.
  intros Hne Hh Hd. pose proof Hd as Hd'.
  apply Forall_app in Hd' as [H1 H2].
  rewrite !parseCSV_csv_text by assumption.
  rewrite map_app, concat_app. reflexivity.
Qed.

Lemma parseCSV_data_app_witness :
  parseCSV (csv_text (js "Concurso,Data,N1,N2,N3,N4,N5")
              ([js "12,01/02/2023,1,2,3,4,5"; js "oops"]
               ++ [js ""; js "13,2023-02-03,6,7,8,9,10"]))
  = parseCSV (csv_text (js "Concurso,Data,N1,N2,N3,N4,N5")
                [js "12,01/02/2023,1,2,3,4,5"; js "oops"])
    ++ parseCSV (csv_text (js "Concurso,Data,N1,N2,N3,N4,N5")
                   [js ""; js "13,2023-02-03,6,7,8,9,10"]).
Proof.
  apply (parseCSV_data_app (js "Concurso,Data,N1,N2,N3,N4,N5")
           [js "12,01/02/2023,1,2,3,4,5"; js "oops"]
           [js ""; js "13,2023-02-03,6,7,8,9,10"]).
  - discriminate.
  - apply includes_false. reflexivity.
  - repeat constructor; apply includes_false; reflexivity.
Defined.

(** X8.  [parseCSV] returns at most one record for each non-empty line after
    the first; a text with no second non-empty line gives no record. *)
Theorem parseCSV_length_bound (csvText : jsstring) :
  (length (parseCSV csvText) <= length (csv_lines csvText) - 1)%nat.
Proof.
  rewrite parseCSV_lines, <- (length_drop (csv_lines csvText) 1).
  induction (drop 1 (csv_lines csvText)) as [|l ls IH]; simpl; [lia|].
  rewrite length_app. pose proof (parseCSV_iter_length l). lia.
Qed.

(** X9.  Only the first seven fields of a line matter: once a line has seven
    fields and its quotes are closed, anything added after a further comma
    changes nothing in what the iteration does. *)
Theorem parseCSV_iter_extra_fields
    (results : list DrawRecord) (line extra : jsstring) :
  (7 <= length (parseCSVLine line))%nat ->
  quoted_after false line = false ->
  parseCSV_iter results (line ++ COMMA :: extra) = parseCSV_iter results line.
Proof.
  intros Hlen Hq. unfold parseCSV_iter.
  assert (E : parseCSVLine (line ++ COMMA :: extra)
              = parseCSVLine line ++ parseCSVLine extra).
  { rewrite !parseCSVLine_raw, raw_fields_app_comma by exact Hq.
    apply map_app. }
  rewrite E. set (row := parseCSVLine line) in *.
  destruct (Nat.ltb_spec (length (row ++ parseCSVLine extra)) 7) as [Hlt|_];
    [rewrite length_app in Hlt; lia|].
  destruct (Nat.ltb_spec (length row) 7) as [Hlt|_]; [lia|].
  rewrite !(app_nth1 row) by lia.
  assert (S : slice 2 7 (row ++ parseCSVLine extra) = slice 2 7 row).
  { unfold slice. rewrite drop_app_le by lia.
    apply take_app_le. rewrite length_drop. lia. }
  rewrite S. reflexivity.
Qed.

Lemma parseCSV_iter_extra_fields_witness :
  parseCSV_iter [] (js "12,01/02/2023,1,2,3,4,5" ++ COMMA :: js "x,,99")
  = parseCSV_iter [] (js "12,01/02/2023,1,2,3,4,5").
Proof.
  apply (parseCSV_iter_extra_fields [] (js "12,01/02/2023,1,2,3,4,5")
           (js "x,,99")).
  - vm_compute. lia.
  - reflexivity.
Defined.

(** X10.  The date rewriting takes the first three parts between slashes
    and nothing else: a date with a single slash has no year and gets the
    text undefined in its place, and whatever follows a third slash is
    dropped. *)
Theorem isoDate_of_missing_or_extra_parts (d m y rest : jsstring) :
  SLASH ∉ d -> SLASH ∉ m -> SLASH ∉ y ->
  isoDate_of (d ++ SLASH :: m)
  = js "undefined" ++ js "-" ++ two_digits m ++ js "-" ++ two_digits d /\
  isoDate_of (d ++ SLASH :: m ++ SLASH :: y ++ SLASH :: rest)
  = y ++ js "-" ++ two_digits m ++ js "-" ++ two_digits d.
Proof.
  intros Hd Hm Hy. unfold isoDate_of. split.
  - rewrite split_app_sep, split_no_sep by assumption.
    rewrite <- !padStart0_two_digits. reflexivity.
  - rewrite !split_app_sep by assumption.
    rewrite <- !padStart0_two_digits. reflexivity.
Qed.

Lemma isoDate_of_missing_or_extra_parts_witness :
  isoDate_of (js "1/2") = js "undefined-02-01" /\
  isoDate_of (js "1/2/2023/x/y") = js "2023-02-01".
Proof.
  apply (isoDate_of_missing_or_extra_parts
           (js "1") (js "2") (js "2023") (js "x/y"));
    apply includes_false; reflexivity.
Defined.

(** ** The merger: what it keeps *)

Section MergerInvariants.
Context {host : Host}.

Implicit Types (L R K : list DrawRecord) (sr : DrawRecord).

Lemma shares_false_Forall K sr :
  shares_drawNumber K sr = false <->
  Forall (fun r => loose_eq (drawNumber r) (drawNumber sr) = false) K.
Proof.
  unfold shares_drawNumber. induction K as [|r K IH]; simpl.
  - split; [constructor|reflexivity].
  - rewrite orb_false_iff, IH, Forall_cons. reflexivity.
Qed.

Lemma distinct_snoc K sr :
  distinct_drawNumbers K -> shares_drawNumber K sr = false ->
  distinct_drawNumbers (K ++ [sr]).
Proof.
  unfold distinct_drawNumbers. intros HK Hs.
  apply shares_false_Forall in Hs.
  induction HK as [|r K Hr HK IH]; simpl.
  - constructor; constructor.
  - inversion Hs as [|? ? Hrs Hs']; subst.
    constructor; [|apply IH, Hs'].
    apply Forall_app. split; [exact Hr|]. constructor; [exact Hrs|constructor].
Qed.

Lemma merge_fold_distinct R K :
  distinct_drawNumbers K -> distinct_drawNumbers (fold_left merge_iter R K).
Proof.
  revert K. induction R as [|sr R IH]; intros K HK; simpl; [exact HK|].
  apply IH.
  destruct (merge_iter_cases K sr) as [[_ ->]|[S ->]]; [exact HK|].
  apply distinct_snoc; assumption.
Qed.

Lemma merge_fold_origin R K :
  Forall (fun r => r ∈ K \/ r ∈ R) (fold_left merge_iter R K).
Proof.
  revert K. induction R as [|sr R IH]; intros K; simpl.
  - apply Forall_forall. auto.
  - eapply Forall_impl; [apply IH|]. intros r [Hr|Hr].
    + destruct (merge_iter_cases K sr) as [[_ E]|[_ E]]; rewrite E in Hr;
        [left; exact Hr|].
      apply elem_of_app in Hr as [Hr|Hr]; [left; exact Hr|].
      apply list_elem_of_singleton in Hr. subst. right. left.
    + right. right. exact Hr.
Qed.

Lemma remote_fresh_not_local L K R :
  Forall (fun sr => shares_drawNumber L sr = false) (remote_fresh L K R).
Proof.
  revert K. induction R as [|sr R IH]; intros K; simpl; [constructor|].
  destruct (shares_drawNumber L sr) eqn:S; simpl; [apply IH|].
  destruct (shares_drawNumber K sr); [apply IH|].
  constructor; [exact S|apply IH].
Qed.

Lemma remote_fresh_length L K R :
  (length (remote_fresh L K R) <= length R)%nat.
Proof.
  revert K. induction R as [|sr R IH]; intros K; simpl; [lia|].
  destruct (_ || _); simpl; [specialize (IH K)|specialize (IH (K ++ [sr]))];
    lia.
Qed.

(** X11.  The merge keeps draw numbers distinct: when no two local records
    have loosely equal draw numbers, no two records of the merged array
    have. *)
Theorem mergeResults_distinct L R :
  distinct_drawNumbers L -> distinct_drawNumbers (mergeResults L R).
Proof. apply merge_fold_distinct. Qed.

(** X12.  The merge invents no record and loses no draw number: every
    record of the result is a local or a remote record, and every remote
    record finds a record of the result with a loosely equal draw number. *)
Theorem mergeResults_origin_and_cover L R :
  Forall (fun r => r ∈ L \/ r ∈ R) (mergeResults L R) /\
  Forall (fun sr => shares_drawNumber (mergeResults L R) sr = true) R.
Proof. split; [apply merge_fold_origin|apply merge_shares_all]. Qed.

(** X13.  Local records win: the merged array starts with the local array
    as it is, holds at most one more record for each remote record, and no
    record after the local ones has a draw number loosely equal to that of a
    local record. *)
Theorem mergeResults_local_wins L R :
  take (length L) (mergeResults L R) = L /\
  (length (mergeResults L R) <= length L + length R)%nat /\
  Forall (fun sr => shares_drawNumber L sr = false)
    (drop (length L) (mergeResults L R)).
Proof.
  assert (E : mergeResults L R = L ++ remote_fresh L [] R).
  { unfold mergeResults. rewrite <- (app_nil_r L) at 1.
    apply (merge_fold_fresh L [] R). }
  rewrite E. split; [|split].
  - rewrite take_app_length. reflexivity.
  - rewrite length_app. pose proof (remote_fresh_length L [] R). lia.
  - rewrite drop_app_length. apply remote_fresh_not_local.
Qed.

End MergerInvariants.

Lemma mergeResults_distinct_witness :
  @distinct_drawNumbers example_host
    (@mergeResults example_host
       [mkDraw (JStr (js "5")) JNull []; mkDraw (JNum 7) JNull []]
       [mkDraw (JNum 5) JNull []; mkDraw (JNum 6) JNull [];
        mkDraw (JNum 6) JNull [1%Z]; mkDraw (JNum 7) JNull []]).
Proof.
  apply (@mergeResults_distinct example_host).
  repeat constructor.
Defined.

(** ** The renderer: edge cases and order *)

Section RendererEdges.
Context {host : Host}.

Lemma insert_alloc (h : list (list DrawRecord)) a s :
  <[length h := s]> (h ++ [a]) = h ++ [s].
Proof. induction h as [|b h IH]; simpl; [reflexivity|]. f_equal. exact IH. Qed.

Lemma new_Date_value v : new_Date v = Normal (date_value v).
Proof. reflexivity. Qed.

Lemma Array_sort_nil_inv (l : list DrawRecord) : Array_sort l = [] -> l = [].
Proof.
  intros E. pose proof (Array_sort_perm l) as Hp. rewrite E in Hp.
  symmetry. apply Permutation_nil_l, Hp.
Qed.

(** What [displayResults] leaves for a non-empty array, in full. *)
Lemma displayResults_nonempty w ref input stamp latest previous :
  arrays w !! ref = Some input ->
  Array_sort input = latest :: previous ->
  displayResults w (mkData (Some ref) stamp)
  = Normal (mkWorld (arrays w ++ [latest :: previous])
              (mkDom (createLatestResultHTML latest) (previous_html previous)
                 (if ToBoolean stamp then date_time_text (date_value stamp)
                  else updateTimeEl (dom w)))).
Proof.
  intros Href Esort.
  assert (Hd : deref (arrays w) ref = input)
    by (unfold deref; rewrite Href; reflexivity).
  unfold displayResults. cbn [results lastUpdated]. rewrite Hd.
  replace (negb (bool_decide (is_Some (Some ref))) || Nat.eqb (length input) 0)
    with false
    by (destruct input; [discriminate Esort|reflexivity]).
  rewrite deref_alloc, !deref_sorted, insert_alloc, Esort.
  destruct (ToBoolean stamp); cbn [drop length Nat.ltb Nat.leb];
    destruct previous; reflexivity.
Qed.

Lemma displayResults_empty w data :
  results data = None \/
  (exists ref, results data = Some ref /\ deref (arrays w) ref = []) ->
  displayResults w data
  = Normal (mkWorld (arrays w)
              (mkDom no_results_html [] (updateTimeEl (dom w)))).
Proof.
  unfold displayResults. intros [->|(ref & -> & ->)]; reflexivity.
Qed.

End RendererEdges.

Section RendererProperties.
Context {host : Host}.


(** X15.  With no results, absent or an empty array, [displayResults] shows
    the no-results message, empties the list of previous results, and leaves
    the update time and every array as they were. *)
Theorem displayResults_no_results (w : World) (data : Data) :
  results data = None \/
  (exists ref, results data = Some ref /\ arrays w !! ref = Some []) ->
  displayResults w data
  = Normal (mkWorld (arrays w)
              (mkDom no_results_html [] (updateTimeEl (dom w)))).
Proof.
  intros [H|(ref & H & Href)]; apply displayResults_empty; [left; exact H|].
  right. exists ref. split; [exact H|]. unfold deref. rewrite Href. reflexivity.
Qed.

(** X16.  A single record is shown as the latest result, whatever its draw
    number, and the list of previous results shows the no-previous-results
    message instead of an empty grid. *)
Theorem displayResults_single_record
    (w : World) (ref : nat) (r : DrawRecord) (stamp : jsval) :
  arrays w !! ref = Some [r] ->
  exists w',
    displayResults w (mkData (Some ref) stamp) = Normal w' /\
    latestResultEl (dom w') = createLatestResultHTML r /\
    previousResultsEl (dom w') = no_previous_html.
Proof.
  intros Href. eexists. split.
  - eapply displayResults_nonempty; [exact Href|reflexivity].
  - split; reflexivity.
Qed.

(** X17.  The update time that [displayResults] shows for a non-empty array
    follows its [lastUpdated]: a missing or empty one leaves the time shown
    before, one that parses shows that time, and one that does not parse
    shows the text Invalid Date. *)
Theorem displayResults_update_time
    (w : World) (ref : nat) (input : list DrawRecord) (stamp : jsval) :
  arrays w !! ref = Some input -> input <> [] ->
  exists w',
    displayResults w (mkData (Some ref) stamp) = Normal w' /\
    updateTimeEl (dom w')
    = if ToBoolean stamp
      then match date_value stamp with
           | Some t => format_date_time t
           | None => js "Invalid Date"
           end
      else updateTimeEl (dom w).
Proof.
  intros Href Hne.
  destruct (Array_sort input) as [|latest previous] eqn:Esort.
  { apply Array_sort_nil_inv in Esort. congruence. }
  eexists. split.
  - eapply displayResults_nonempty; eassumption.
  - reflexivity.
Qed.


End RendererProperties.

Lemma displayResults_no_results_witness :
  @displayResults example_host
    (mkWorld [[]] (mkDom (js "old") (js "old") (js "10:00")))
    (mkData (Some 0%nat) (JStr (js "2024-01-05")))
  = Normal (mkWorld [[]] (mkDom no_results_html [] (js "10:00"))).
Proof.
  apply (@displayResults_no_results example_host
           (mkWorld [[]] (mkDom (js "old") (js "old") (js "10:00")))
           (mkData (Some 0%nat) (JStr (js "2024-01-05")))).
  right. exists 0%nat. split; reflexivity.
Defined.

Lemma displayResults_single_record_witness :
  exists w',
    @displayResults example_host
      (mkWorld [[mkDraw JUndefined JNull []]] (mkDom [] [] []))
      (mkData (Some 0%nat) JUndefined) = Normal w' /\
    latestResultEl (dom w')
    = @createLatestResultHTML example_host (mkDraw JUndefined JNull []) /\
    previousResultsEl (dom w') = no_previous_html.
Proof.
  apply (@displayResults_single_record example_host
           (mkWorld [[mkDraw JUndefined JNull []]] (mkDom [] [] []))
           0%nat (mkDraw JUndefined JNull []) JUndefined).
  reflexivity.
Defined.

Lemma displayResults_update_time_witness :
  exists w',
    @displayResults example_host
      (mkWorld [[mkDraw (JNum 1) JNull []]] (mkDom [] [] (js "10:00")))
      (mkData (Some 0%nat) (JStr (js "yesterday"))) = Normal w' /\
    updateTimeEl (dom w') = js "Invalid Date".
Proof.
  apply (@displayResults_update_time example_host
           (mkWorld [[mkDraw (JNum 1) JNull []]] (mkDom [] [] (js "10:00")))
           0%nat [mkDraw (JNum 1) JNull []] (JStr (js "yesterday"))).
  - reflexivity.
  - discriminate.
Defined.


(** ** The orchestrator *)

Section Orchestrator.
Context {host : Host}.

Lemma local_results_failure localJSON :
  local_results localJSON = None <-> local_failure localJSON.
Proof.
  unfold local_failure.
  destruct localJSON as [| |[[rs|]|e]]; simpl; split;
    try discriminate; try tauto; eauto.
  - intros [H|[[e H]|H]]; discriminate.
  - intros [H|[[e H]|H]]; discriminate.
Qed.




(** The outer [try] when the local records are there: merge, display,
    update time. *)
Lemma fetchResults_try_success w localJSON sheet isoNow now L :
  local_results localJSON = Some L ->
  fetchResults_try w localJSON sheet isoNow now
  = Normal
      match Array_sort (mergeResults L (sheet_results sheet)) with
      | [] =>
          mkWorld (arrays w ++ [mergeResults L (sheet_results sheet)])
            (mkDom no_results_html [] (format_date_time now))
      | latest :: previous =>
          mkWorld ((arrays w ++ [mergeResults L (sheet_results sheet)])
                   ++ [latest :: previous])
            (mkDom (createLatestResultHTML latest) (previous_html previous)
               (format_date_time now))
      end.
Proof.
  intros HL. unfold fetchResults_try.
  assert (E : match localJSON with
              | Rejected => Throw (js "TypeError")
              | NotOk => mret (Some [])
              | Ok body => body
              end = Normal (Some L)).
  { destruct localJSON as [| |[[rs|]|e]]; simpl in HL; try discriminate;
      injection HL as <-; reflexivity. }
  rewrite E. cbn [mbind completion_bind mret completion_ret].
  set (merged := mergeResults L (sheet_results sheet)).
  set (w1 := mkWorld (arrays w ++ [merged]) (dom w)).
  assert (Href : arrays w1 !! length (arrays w) = Some merged).
  { unfold w1. cbn [arrays]. rewrite lookup_app_r by lia.
    replace (length (arrays w) - length (arrays w))%nat with 0%nat by lia.
    reflexivity. }
  destruct (Array_sort merged) as [|latest previous] eqn:Esort.
  - apply Array_sort_nil_inv in Esort.
    rewrite (displayResults_empty w1); [reflexivity|].
    right. exists (length (arrays w)). split; [reflexivity|].
    unfold deref. rewrite Href, Esort. reflexivity.
  - rewrite (displayResults_nonempty w1 _ merged _ latest previous Href Esort).
    reflexivity.
Qed.

Lemma fetchResults_try_failure w localJSON sheet isoNow now :
  local_results localJSON = None ->
  exists e, fetchResults_try w localJSON sheet isoNow now = Throw e.
Proof.
  unfold fetchResults_try.
  destruct localJSON as [| |[[rs|]|e]]; simpl; try discriminate; eauto.
Qed.


End Orchestrator.

Section OrchestratorProperties.
Context {host : Host}.

(** X19.  A download that fails counts as an empty one.  A sheet whose
    download rejects, is answered without [ok], or cannot be read leaves the
    page that an empty sheet leaves; a local file answered without [ok]
    leaves the page that an empty list of local results leaves. *)
Theorem fetchResults_failed_downloads
    (p : Page) (localJSON : fetched (option (list DrawRecord)))
    (sheet : fetched jsstring) (isoNow : jsstring) (now : Z) (e : jsstring) :
  fetchResults p localJSON Rejected isoNow now
  = fetchResults p localJSON (Ok (Normal [])) isoNow now /\
  fetchResults p localJSON NotOk isoNow now
  = fetchResults p localJSON (Ok (Normal [])) isoNow now /\
  fetchResults p localJSON (Ok (Throw e)) isoNow now
  = fetchResults p localJSON (Ok (Normal [])) isoNow now /\
  fetchResults p NotOk sheet isoNow now
  = fetchResults p (Ok (Normal (Some []))) sheet isoNow now.
Proof. repeat split. Qed.

(** X20.  When the local download rejects, or its JSON cannot be read, or
    its results cannot be spread, the cycle ends in the error block: it
    replaces the latest result, while the previous results, the update time
    and the arrays stay as they were, whatever the sheet answered; the
    button is enabled again under its usual label. *)
Theorem fetchResults_local_failure
    (p : Page) (localJSON : fetched (option (list DrawRecord)))
    (sheet : fetched jsstring) (isoNow : jsstring) (now : Z) :
  local_failure localJSON ->
  fetchResults p localJSON sheet isoNow now
  = mkPage
      (mkWorld (arrays (world p))
         (mkDom fetch_error_html
            (previousResultsEl (dom (world p)))
            (updateTimeEl (dom (world p)))))
      (mkButton false default_label).
Proof.
  intros Hf. apply local_results_failure in Hf.
  unfold fetchResults.
  destruct (fetchResults_try_failure (world (fetchResults_begin p))
              localJSON sheet isoNow now Hf) as [e ->].
  reflexivity.
Qed.




(** X24.  A cycle never changes an array that existed before it: the
    arrays of the store after the cycle start with the arrays before it. *)
Theorem fetchResults_keeps_arrays
    (p : Page) (localJSON : fetched (option (list DrawRecord)))
    (sheet : fetched jsstring) (isoNow : jsstring) (now : Z) :
  take (length (arrays (world p)))
    (arrays (world (fetchResults p localJSON sheet isoNow now)))
  = arrays (world p).
Proof.
  unfold fetchResults.
  destruct (local_results localJSON) as [L|] eqn:HL.
  - rewrite (fetchResults_try_success _ _ _ _ _ L HL).
    cbn [fetchResults_begin world].
    destruct (Array_sort (mergeResults L (sheet_results sheet)));
      cbn [world arrays]; rewrite <- ?app_assoc; apply take_app_length.
  - destruct (fetchResults_try_failure (world (fetchResults_begin p))
                localJSON sheet isoNow now HL) as [e ->].
    cbn [fetchResults_begin world arrays]. apply firstn_all.
Qed.

End OrchestratorProperties.

Lemma fetchResults_local_failure_witness :
  @fetchResults example_host
    (mkPage (mkWorld [] (mkDom (js "latest") (js "previous") (js "10:00")))
       (mkButton true loading_label))
    (Ok (Normal None))
    (Ok (Normal (js "Concurso,Data,N1,N2,N3,N4,N5" ++ LF
                   :: js "12,01/02/2023,1,2,3,4,5")))
    (js "2024-01-05T10:05:00.000Z") 5
  = mkPage
      (mkWorld [] (mkDom fetch_error_html (js "previous") (js "10:00")))
      (mkButton false default_label).
Proof.
  apply (@fetchResults_local_failure example_host).
  right. right. reflexivity.
Defined.




(** ** White space at the ends of fields and lines *)

Section WhiteSpace.

Lemma trimEnd_fixed u :
  (forall c, last u = Some c -> is_white_space c = false) -> trimEnd u = u.
Proof.
  induction u as [|a u IH]; intros H; simpl; [reflexivity|].
  destruct u as [|b u].
  - simpl. rewrite (H a eq_refl). reflexivity.
  - rewrite IH by (intros c Hc; apply H; exact Hc). reflexivity.
Qed.

Lemma trimStart_fixed u :
  (forall c, head u = Some c -> is_white_space c = false) -> trimStart u = u.
Proof.
  destruct u as [|a u]; intros H; simpl; [reflexivity|].
  rewrite (H a eq_refl). reflexivity.
Qed.

Lemma trim_fixed u : trimmed u -> trim u = u.
Proof.
  intros [Hh Hl]. unfold trim.
  rewrite (trimStart_fixed u Hh). apply trimEnd_fixed, Hl.
Qed.

Lemma trimEnd_snoc s c :
  is_white_space c = true -> trimEnd (s ++ [c]) = trimEnd s.
Proof.
  intros Hc. induction s as [|a s IH]; simpl.
  - rewrite Hc. reflexivity.
  - rewrite IH. reflexivity.
Qed.

Lemma trimStart_snoc s c :
  is_white_space c = true ->
  trimStart (s ++ [c])
  = match trimStart s with [] => [] | t => t ++ [c] end.
Proof.
  intros Hc. induction s as [|a s IH]; simpl.
  - rewrite Hc. reflexivity.
  - destruct (is_white_space a); [exact IH|reflexivity].
Qed.

Lemma trim_snoc s c : is_white_space c = true -> trim (s ++ [c]) = trim s.
Proof.
  intros Hc. unfold trim. rewrite (trimStart_snoc s c Hc).
  destruct (trimStart s) as [|a t]; [reflexivity|].
  apply (trimEnd_snoc (a :: t) c Hc).
Qed.

Lemma white_space_plain c :
  is_white_space c = true -> c <> QUOTE /\ c <> COMMA.
Proof.
  intros H. split; intros ->; discriminate.
Qed.

Lemma parseCSVLine_snoc_space line c :
  is_white_space c = true -> parseCSVLine (line ++ [c]) = parseCSVLine line.
Proof.
  intros Hc. destruct (white_space_plain c Hc) as [Hq Hm].
  unfold parseCSVLine, parseCSVLine_loop. rewrite fold_left_app. simpl.
  destruct (step_cases (fold_left parseCSVLine_step line (LineState [] [] false)) c)
    as [[E _]|[(_ & E & _)|(_ & _ & ->)]]; [congruence|congruence|].
  simpl. rewrite trim_snoc by exact Hc. reflexivity.
Qed.

Lemma parseCSV_iter_snoc_space results line c :
  is_white_space c = true ->
  parseCSV_iter results (line ++ [c]) = parseCSV_iter results line.
Proof.
  intros Hc. unfold parseCSV_iter.
  rewrite parseCSVLine_snoc_space by exact Hc. reflexivity.
Qed.

End WhiteSpace.

(** X25.  Every field that the row parser returns is left unchanged by a
    further trim, so the trim that [parseCSV] applies to the date field
    changes nothing. *)
Theorem parseCSVLine_fields_trim_fixed (line : jsstring) (i : nat) :
  trim (nth i (parseCSVLine line) []) = nth i (parseCSVLine line) [].
Proof.
  rewrite parseCSVLine_raw.
  destruct (nth_in_or_default i (map trim (raw_fields false line)) [])
    as [Hin| ->]; [|reflexivity].
  apply in_map_iff in Hin as (f & <- & _).
  apply trim_fixed, trim_trimmed.
Qed.

(** X26.  Line endings with a carriage return are harmless: a sheet whose
    header and data lines each end with a carriage return, or with any
    other white space character but the line feed, gives the records of the
    sheet without them. *)
Theorem parseCSV_carriage_returns
    (header : jsstring) (data : list jsstring) (c : N) :
  is_white_space c = true -> c <> LF ->
  header <> [] -> LF ∉ header -> Forall (fun l => LF ∉ l) data ->
  parseCSV (csv_text (header ++ [c]) (map (fun l => l ++ [c]) data))
  = parseCSV (csv_text header data).
Proof.
  intros Hc Hlf Hne Hh Hd.
  rewrite !parseCSV_csv_text; try assumption.
  - rewrite map_map. f_equal. apply map_ext. intros l.
    apply parseCSV_iter_snoc_space, Hc.
  - intros E. apply (f_equal length) in E. rewrite length_app in E.
    simpl in E. lia.
  - intros H. apply elem_of_app in H as [H|H]; [auto|].
    apply list_elem_of_singleton in H. congruence.
  - apply Forall_forall. intros l' Hl'.
    apply list_elem_of_fmap in Hl' as (l & -> & Hl).
    rewrite Forall_forall in Hd. intros H.
    apply elem_of_app in H as [H|H]; [exact (Hd l Hl H)|].
    apply list_elem_of_singleton in H. congruence.
Qed.

Lemma parseCSV_carriage_returns_witness :
  parseCSV (csv_text (js "Concurso,Data,N1,N2,N3,N4,N5" ++ [13])
              (map (fun l => l ++ [13])
                 [js "12,01/02/2023,1,2,3,4,5"; js ""; js "13,x,6,7,8,9,10"]))
  = parseCSV (csv_text (js "Concurso,Data,N1,N2,N3,N4,N5")
                [js "12,01/02/2023,1,2,3,4,5"; js ""; js "13,x,6,7,8,9,10"]).
Proof.
  apply (parseCSV_carriage_returns (js "Concurso,Data,N1,N2,N3,N4,N5")
           [js "12,01/02/2023,1,2,3,4,5"; js ""; js "13,x,6,7,8,9,10"] 13).
  - reflexivity.
  - discriminate.
  - discriminate.
  - apply includes_false. reflexivity.
  - repeat constructor; apply includes_false; reflexivity.
Defined.
